(** * geminiproxy: a rate-limited gateway in front of the gemini CLI

    Shallow embedding of [gemini_api.py] (GeminiRateLimiter, GeminiAPI) and
    of the job registry of [gemini_server.py], with the properties of the
    request orchestration engine stated and proved over it.

    Conventions.
    - Python dicts are finite maps from keys to values ([gmap string Val]).
      A dict that is shared and mutated after it was handed out (the result
      of [GeminiAPI.prompt], which is also the cache entry) lives in a heap of
      objects and is passed by reference, as in Python.
    - The SQLite table [requests] is a list of rows; timestamps are whole
      seconds (the resolution of CURRENT_TIMESTAMP), and the text comparison
      of two timestamps in SQLite is the order of these numbers.
    - Everything the process cannot determine by itself (the child process,
      the digest function, the clocks) is a field of a [Host] record or an
      explicit clock reading. *)

From Stdlib Require Import ZArith String DecimalString Lia.
From stdpp Require Import gmap strings list fin_maps.

Open Scope string_scope.
Open Scope list_scope.

(** ** Python values *)

Module Py.

(** The dict returned by [GeminiRateLimiter.get_usage_stats]; it is built
    afresh on every call and never mutated. *)
Record Usage := {
  requests_last_hour : Z;
  requests_today : Z;
  remaining_this_hour : Z;
  max_per_hour : Z
}.

Inductive Val :=
| VNone
| VBool (b : bool)
| VInt (z : Z)
| VStr (s : string)
| VUsage (u : Usage)
| VRef (l : nat)              (* a reference to a dict object *)
| VRefs (ls : list nat).      (* a list of references *)

(** [str(n)] for an int. *)
Definition str_int (z : Z) : string := NilZero.string_of_int (Z.to_int z).

(** What an f-string prints for a value that is [None], an int or a str. *)
Definition fmt (v : Val) : string :=
  match v with
  | VNone => "None"
  | VBool true => "True"
  | VBool false => "False"
  | VInt z => str_int z
  | VStr s => s
  | _ => ""
  end.

(** Truth value of an object in an [if]. *)
Definition truthy (v : Val) : bool :=
  match v with
  | VNone => false
  | VBool b => b
  | VInt z => negb (z =? 0)%Z
  | VStr s => negb (String.eqb s "")
  | VUsage _ => true
  | VRef _ => true
  | VRefs ls => negb (Nat.eqb (length ls) 0)
  end.

(** [len(v)]: defined on strings and lists, a TypeError on the rest. *)
Definition len (v : Val) : option Z :=
  match v with
  | VStr s => Some (Z.of_nat (String.length s))
  | VRefs ls => Some (Z.of_nat (length ls))
  | _ => None
  end.

(** [d.get(k, default)]. *)
Definition get (d : gmap string Val) (k : string) (default : Val) : Val :=
  match d !! k with
  | Some v => v
  | None => default
  end.

End Py.

(** ** GeminiRateLimiter *)

Module RateLimiter.

Import Py.

(** A row of the table [requests]. *)
Record RateRecord := {
  rr_id : Z;
  rr_timestamp : Z;
  rr_prompt_hash : string;
  rr_response_length : Z
}.

(** The database file: the rows of [requests] and the AUTOINCREMENT
    counter (the largest id handed out so far). *)
Record Database := {
  db_rows : list RateRecord;
  db_last_id : Z
}.

Definition init_db : Database := {| db_rows := []; db_last_id := 0 |}.

Definition hour : Z := 3600.
Definition day : Z := 86400.

(** [DELETE FROM requests WHERE timestamp < datetime('now', '-1 hour')] *)
Definition sql_delete_old (now : Z) (db : Database) : Database :=
  {| db_rows := filter (λ r, ¬ (rr_timestamp r < now - hour)%Z) (db_rows db);
     db_last_id := db_last_id db |}.

(** The rows selected by [WHERE timestamp > datetime('now', '-1 hour')]. *)
Definition recent (now : Z) (db : Database) : list RateRecord :=
  filter (λ r, (rr_timestamp r > now - hour)%Z) (db_rows db).

(** [SELECT COUNT( * ) FROM requests WHERE timestamp > datetime('now', '-1 hour')] *)
Definition sql_count_recent (now : Z) (db : Database) : Z :=
  Z.of_nat (length (recent now db)).

(** Minimum of a list of timestamps, [None] (SQL NULL) for no rows. *)
Fixpoint minimum (ts : list Z) : option Z :=
  match ts with
  | [] => None
  | t :: ts' =>
      match minimum ts' with
      | None => Some t
      | Some m => Some (Z.min t m)
      end
  end.

(** [SELECT MIN(timestamp) FROM requests WHERE timestamp > datetime('now', '-1 hour')] *)
Definition sql_min_recent (now : Z) (db : Database) : option Z :=
  minimum (rr_timestamp <$> recent now db).

(** [SELECT COUNT( * ) FROM requests WHERE timestamp > datetime('now', 'start of day')] *)
Definition sql_count_today (now : Z) (db : Database) : Z :=
  Z.of_nat (length (filter (λ r, (rr_timestamp r > now - now `mod` day)%Z) (db_rows db))).

(** [INSERT INTO requests (prompt_hash, response_length) VALUES (?, ?)]:
    the id is the next AUTOINCREMENT value and the timestamp defaults to
    CURRENT_TIMESTAMP. *)
Definition sql_insert (now : Z) (prompt_hash : string) (response_length : Z)
    (db : Database) : Database :=
  {| db_rows := db_rows db ++
       [ {| rr_id := db_last_id db + 1; rr_timestamp := now;
            rr_prompt_hash := prompt_hash;
            rr_response_length := response_length |} ];
     db_last_id := db_last_id db + 1 |}.

(** The clocks read by one call of [can_make_request]: SQLite evaluates
    ['now'] (UTC, whole seconds) once in each of the three statements, and
    Python reads [datetime.now()] (the local clock, microseconds). *)
Record Readings := {
  at_delete : Z;
  at_count : Z;
  at_min : Z;
  py_now_us : Z
}.

Definition million : Z := 1000000.

(** [int((oldest_time + timedelta(hours=1) - datetime.now()).total_seconds())]:
    the difference is a whole number of microseconds and [int] truncates
    its quotient by 10^6 toward zero. *)
Definition seconds_until_expiry (oldest : Z) (py_now : Z) : Z :=
  ((oldest + hour) * million - py_now) ÷ million.

(** [can_make_request]. The first connection runs the DELETE and the COUNT;
    it is closed without [commit()], so the DELETE stays in the pending
    transaction of that connection and the file keeps its rows: the COUNT
    sees the pruned view, the second connection and later calls see the
    file. The function returns the answer and the file after the call. *)
Definition can_make_request (max_requests : Z) (ck : Readings) (db : Database)
    : (bool * option Z) * Database :=
  let view := sql_delete_old (at_delete ck) db in
  let count := sql_count_recent (at_count ck) view in
  if (count <? max_requests)%Z then ((true, None), db)
  else
    match sql_min_recent (at_min ck) db with
    | Some oldest =>
        ((false, Some (Z.max 1 (seconds_until_expiry oldest (py_now_us ck)))), db)
    | None => ((false, Some 60%Z), db)
    end.

(** [record_request]: one INSERT, committed. *)
Definition record_request (md5 : string → string) (now : Z)
    (prompt : string) (response_length : Z) (db : Database) : Database :=
  sql_insert now (md5 prompt) response_length db.

(** [get_usage_stats]; both statements run in one connection. *)
Definition get_usage_stats (max_requests : Z) (at_hour at_today : Z)
    (db : Database) : Usage :=
  let hour_count := sql_count_recent at_hour db in
  let today_count := sql_count_today at_today db in
  {| requests_last_hour := hour_count;
     requests_today := today_count;
     remaining_this_hour := max_requests - hour_count;
     max_per_hour := max_requests |}.

(** *** Requests going through the limiter

    A caller ([GeminiAPI.prompt]) first calls [can_make_request] and, only
    if it was allowed and the command succeeded, later calls
    [record_request]; when every attempt failed it returns without
    recording ([EvGiveUp]). The check that [batch_prompts] makes on its
    own before each call of [prompt] is never followed by a record either:
    it is an [EvAdmit] with its [EvGiveUp]. Each call of the limiter holds
    the limiter's lock for its own duration; the lock is released between
    the calls. [pending] holds the requests that were allowed and have
    neither recorded nor given up yet. *)

Inductive Event :=
| EvAdmit (req : nat) (ck : Readings)
| EvRecord (req : nat) (now : Z) (prompt : string) (response_length : Z)
| EvGiveUp (req : nat) (now : Z).

Record Sys := {
  sys_db : Database;
  sys_pending : list nat;
  sys_time : Z
}.

Definition ordered (ck : Readings) : bool :=
  bool_decide (at_delete ck ≤ at_count ck)%Z && bool_decide (at_count ck ≤ at_min ck)%Z.

(** One event; [None] when the event cannot happen in this state: a clock
    running backwards, a request admitted twice, or a record or a failure
    of a request that was not allowed. A request whose attempts all failed
    ([EvGiveUp]) leaves the store as it is. *)
Definition step (md5 : string → string) (max_requests : Z) (e : Event) (s : Sys)
    : option Sys :=
  match e with
  | EvAdmit req ck =>
      if bool_decide (sys_time s ≤ at_delete ck)%Z && ordered ck
         && bool_decide (req ∉ sys_pending s)
      then
        let '((allowed, _), db) := can_make_request max_requests ck (sys_db s) in
        Some {| sys_db := db;
                sys_pending := if allowed then req :: sys_pending s else sys_pending s;
                sys_time := if allowed then at_count ck else at_min ck |}
      else None
  | EvRecord req now prompt response_length =>
      if bool_decide (sys_time s ≤ now)%Z && bool_decide (req ∈ sys_pending s)
      then
        Some {| sys_db := record_request md5 now prompt response_length (sys_db s);
                sys_pending := filter (λ r, r ≠ req) (sys_pending s);
                sys_time := now |}
      else None
  | EvGiveUp req now =>
      if bool_decide (sys_time s ≤ now)%Z && bool_decide (req ∈ sys_pending s)
      then
        Some {| sys_db := sys_db s;
                sys_pending := filter (λ r, r ≠ req) (sys_pending s);
                sys_time := now |}
      else None
  end.

(** The states after each event of a sequence. *)
Fixpoint trajectory (md5 : string → string) (max_requests : Z)
    (es : list Event) (s : Sys) : option (list Sys) :=
  match es with
  | [] => Some []
  | e :: es' =>
      match step md5 max_requests e s with
      | None => None
      | Some s' =>
          match trajectory md5 max_requests es' s' with
          | None => None
          | Some ss => Some (s' :: ss)
          end
      end
  end.

(** The quota at a state: from the state's time on, the rows of the
    trailing hour are at most [max_requests]. *)
Definition within_quota (max_requests : Z) (s : Sys) : Prop :=
  ∀ now, (sys_time s ≤ now)%Z → (sql_count_recent now (sys_db s) ≤ max_requests)%Z.

(** At most [n] allowed requests are between their check and their record
    or their failure. *)
Definition overlap_at_most (n : nat) (s : Sys) : Prop :=
  (length (sys_pending s) ≤ n)%nat.

(** The requests go one at a time: no request is checked while another
    allowed request has yet to record or to fail. *)
Definition one_at_a_time (s : Sys) : Prop := overlap_at_most 1 s.

(** The invariant behind the quota: the rows of the trailing hour and the
    requests that were allowed and have neither recorded nor given up yet
    fit in [max_requests] together. *)
Definition reserved (max_requests : Z) (s : Sys) : Prop :=
  ∀ now, (sys_time s ≤ now)%Z →
    (sql_count_recent now (sys_db s) + Z.of_nat (length (sys_pending s)) ≤ max_requests)%Z.

End RateLimiter.

(** ** The process: its memory, its host and its effects *)

Module Runtime.

Import Py RateLimiter.

(** What [subprocess.run(cmd, capture_output=True, text=True, timeout=300)]
    can do. *)
Inductive Outcome :=
| Exited (returncode : Z) (stdout stderr : string)
| TimeoutExpired
| Raised (msg : string).      (* any other exception [e], [str(e) = msg] *)

(** The host of the process. *)
Record Host := {
  (* hashlib.md5(s.encode()).hexdigest() *)
  md5 : string → string;
  (* what the f-string prints for extra_flags: str of a list, or "None" *)
  str_flags : option (list string) → string;
  (* the n-th child process of this run: what it does, and for how many
     microseconds it runs *)
  subprocess_run : nat → list string → Outcome * Z;
  (* the local clock of datetime.now() minus UTC, in microseconds *)
  utc_offset_us : Z;
  (* datetime.isoformat() *)
  isoformat : Z → string
}.

(** An entry of [GeminiAPI.request_queue]. The callback is a closure; the
    one closure of the repository is made by the server's [prompt_async]
    and is determined by the [job_id] it captured. *)
Record Request := {
  rq_prompt : string;
  rq_extra_flags : option (list string);
  rq_callback : option string;
  rq_timestamp : Z
}.

(** What the engine does to its collaborators, in the order it does it. *)
Inductive Effect :=
| CanMakeRequest                                  (* rate_limiter.can_make_request() *)
| RecordRequest (prompt : string) (response_length : Z)
| GetUsageStats
| Sleep (seconds : Z)                             (* time.sleep *)
| Execute (cmd : list string).                    (* subprocess.run *)

Record State := {
  db : Database;                          (* ~/.gemini_rate_limit.db *)
  response_cache : gmap string nat;       (* GeminiAPI.response_cache *)
  request_queue : list Request;           (* GeminiAPI.request_queue *)
  job_results : gmap string (gmap string Val);   (* gemini_server.job_results *)
  batch_threads : gmap string (list string);     (* running process_batch threads *)
  heap : list (gmap string Val);          (* the result dicts, by reference *)
  now_us : Z;                             (* UTC, microseconds *)
  calls : nat;                            (* child processes started so far *)
  effects : list Effect
}.

Definition initial (now : Z) (d : Database) : State :=
  {| db := d; response_cache := ∅; request_queue := []; job_results := ∅;
     batch_threads := ∅; heap := []; now_us := now; calls := 0; effects := [] |}.

Definition set_db (f : Database → Database) (s : State) : State :=
  {| db := f (db s); response_cache := response_cache s;
     request_queue := request_queue s; job_results := job_results s;
     batch_threads := batch_threads s; heap := heap s; now_us := now_us s;
     calls := calls s; effects := effects s |}.

Definition set_response_cache (f : gmap string nat → gmap string nat) (s : State) : State :=
  {| db := db s; response_cache := f (response_cache s);
     request_queue := request_queue s; job_results := job_results s;
     batch_threads := batch_threads s; heap := heap s; now_us := now_us s;
     calls := calls s; effects := effects s |}.

Definition set_request_queue (f : list Request → list Request) (s : State) : State :=
  {| db := db s; response_cache := response_cache s;
     request_queue := f (request_queue s); job_results := job_results s;
     batch_threads := batch_threads s; heap := heap s; now_us := now_us s;
     calls := calls s; effects := effects s |}.

Definition set_job_results
    (f : gmap string (gmap string Val) → gmap string (gmap string Val)) (s : State) : State :=
  {| db := db s; response_cache := response_cache s;
     request_queue := request_queue s; job_results := f (job_results s);
     batch_threads := batch_threads s; heap := heap s; now_us := now_us s;
     calls := calls s; effects := effects s |}.

Definition set_batch_threads
    (f : gmap string (list string) → gmap string (list string)) (s : State) : State :=
  {| db := db s; response_cache := response_cache s;
     request_queue := request_queue s; job_results := job_results s;
     batch_threads := f (batch_threads s); heap := heap s; now_us := now_us s;
     calls := calls s; effects := effects s |}.

Definition set_heap (f : list (gmap string Val) → list (gmap string Val)) (s : State) : State :=
  {| db := db s; response_cache := response_cache s;
     request_queue := request_queue s; job_results := job_results s;
     batch_threads := batch_threads s; heap := f (heap s); now_us := now_us s;
     calls := calls s; effects := effects s |}.

Definition set_now_us (f : Z → Z) (s : State) : State :=
  {| db := db s; response_cache := response_cache s;
     request_queue := request_queue s; job_results := job_results s;
     batch_threads := batch_threads s; heap := heap s; now_us := f (now_us s);
     calls := calls s; effects := effects s |}.

Definition set_calls (f : nat → nat) (s : State) : State :=
  {| db := db s; response_cache := response_cache s;
     request_queue := request_queue s; job_results := job_results s;
     batch_threads := batch_threads s; heap := heap s; now_us := now_us s;
     calls := f (calls s); effects := effects s |}.

Definition set_effects (f : list Effect → list Effect) (s : State) : State :=
  {| db := db s; response_cache := response_cache s;
     request_queue := request_queue s; job_results := job_results s;
     batch_threads := batch_threads s; heap := heap s; now_us := now_us s;
     calls := calls s; effects := f (effects s) |}.

(** Computations on the process state; [None] is an exception that nothing
    caught (a KeyError or a TypeError). *)
Definition M (A : Type) : Type := State → option (A * State).

Definition ret {A} (a : A) : M A := λ s, Some (a, s).

Definition bind {A B} (m : M A) (k : A → M B) : M B :=
  λ s, match m s with
       | Some (a, s') => k a s'
       | None => None
       end.

Definition raise {A} : M A := λ _, None.

Definition gets {A} (f : State → A) : M A := λ s, Some (f s, s).

Definition modify (f : State → State) : M unit := λ s, Some (tt, f s).

Definition emit (e : Effect) : M unit := modify (set_effects (λ es, es ++ [e])).

(** A new dict object. *)
Definition alloc (d : gmap string Val) : M nat :=
  λ s, Some (length (heap s), set_heap (λ h, h ++ [d]) s).

(** [obj[k] = v] *)
Definition setitem (l : nat) (k : string) (v : Val) : M unit :=
  modify (set_heap (alter (<[k := v]>) l)).

(** [obj[k]], a KeyError when the key is missing. *)
Definition getitem (l : nat) (k : string) : M Val :=
  λ s, match heap s !! l ≫= (.!! k) with
       | Some v => Some (v, s)
       | None => None
       end.

(** [obj.get(k, default)] *)
Definition getdefault (l : nat) (k : string) (default : Val) : M Val :=
  λ s, match heap s !! l with
       | Some d => Some (get d k default, s)
       | None => None
       end.

(** [time.sleep(seconds)] *)
Definition sleep (seconds : Z) : M unit :=
  λ s, Some (tt, set_now_us (λ t, t + seconds * million)%Z
                   (set_effects (λ es, es ++ [Sleep seconds]) s)).

(** [subprocess.run(cmd, ...)], exceptions as values. *)
Definition run (h : Host) (cmd : list string) : M Outcome :=
  λ s, let '(out, elapsed) := subprocess_run h (calls s) cmd in
       Some (out, set_now_us (λ t, t + elapsed)%Z
                    (set_calls S (set_effects (λ es, es ++ [Execute cmd]) s))).

(** SQLite's ['now'] (UTC, whole seconds) and Python's [datetime.now()]. *)
Definition sql_now (s : State) : Z := (now_us s `div` million)%Z.
Definition py_now (h : Host) (s : State) : Z := (now_us s + utc_offset_us h)%Z.

(** The clocks that one call of the limiter reads. The clock of this model
    advances with the child processes and the sleeps only, so the
    statements of one call of the limiter, and a snapshot taken right after
    a check, read the same second. *)
Definition readings (h : Host) (s : State) : Readings :=
  {| at_delete := sql_now s; at_count := sql_now s; at_min := sql_now s;
     py_now_us := py_now h s |}.

End Runtime.

Notation "'let*' x ':=' c 'in' k" := (Runtime.bind c (λ x, k))
  (at level 10, x pattern, c at level 100, k at level 200,
   format "'[v' 'let*'  x  ':='  c  'in' '/' k ']'").

Notation "c ';;' k" := (Runtime.bind c (λ _, k))
  (at level 100, k at level 200, right associativity).

(** ** GeminiAPI *)

Module Api.

Import Py RateLimiter Runtime.

Record GeminiAPI := {
  auto_approve : bool;
  checkpointing : bool;
  max_retries : Z;
  max_requests : Z            (* rate_limiter.max_requests *)
}.

(** [GeminiAPI()] with the defaults of [__init__]. *)
Definition default : GeminiAPI :=
  {| auto_approve := true; checkpointing := true; max_retries := 3; max_requests := 950 |}.

Section Methods.

Context (h : Host) (self : GeminiAPI).

(** The three methods of [self.rate_limiter], on the database of the
    process and with the clocks of the process. *)
Definition limiter_can_make_request : M (bool * option Z) :=
  λ s, let '(answer, d) :=
         can_make_request (max_requests self) (readings h s) (db s) in
       Some (answer, set_db (λ _, d) (set_effects (λ es, es ++ [CanMakeRequest]) s)).

Definition limiter_record_request (prompt : string) (response_length : Z) : M unit :=
  λ s, Some (tt, set_db (record_request (md5 h) (sql_now s) prompt response_length)
                   (set_effects (λ es, es ++ [RecordRequest prompt response_length]) s)).

Definition limiter_get_usage_stats : M Usage :=
  λ s, Some (get_usage_stats (max_requests self) (sql_now s) (sql_now s) (db s),
             set_effects (λ es, es ++ [GetUsageStats]) s).

(** The argument vector built by [_execute_gemini_command]; [extend] of
    an empty list adds nothing, as the guard [if extra_flags] does. *)
Definition command (prompt : string) (extra_flags : option (list string)) : list string :=
  ["gemini"]
    ++ (if auto_approve self then ["--yolo"] else [])
    ++ (if checkpointing self then ["--checkpointing"] else [])
    ++ (match extra_flags with Some flags => flags | None => [] end)
    ++ ["-p"; prompt].

(** The dict that [_execute_gemini_command] returns for what the child
    process did. *)
Definition outcome_result (cmd : list string) (out : Outcome) : gmap string Val :=
  match out with
  | Exited returncode stdout stderr =>
      <["success" := VBool (returncode =? 0)%Z]>
      (<["output" := VStr stdout]>
      (<["error" := if (returncode =? 0)%Z then VNone else VStr stderr]>
      (<["command" := VStr (String.concat " " cmd)]> ∅)))
  | TimeoutExpired =>
      <["success" := VBool false]>
      (<["output" := VNone]>
      (<["error" := VStr "Command timed out after 5 minutes"]>
      (<["command" := VStr (String.concat " " cmd)]> ∅)))
  | Raised msg =>
      <["success" := VBool false]>
      (<["output" := VNone]>
      (<["error" := VStr msg]>
      (<["command" := VStr (String.concat " " cmd)]> ∅)))
  end.

Definition _execute_gemini_command (prompt : string)
    (extra_flags : option (list string)) : M nat :=
  let cmd := command prompt extra_flags in
  let* out := run h cmd in
  alloc (outcome_result cmd out).

(** [hashlib.md5(f"{prompt}{extra_flags}".encode()).hexdigest()]. The texts
    of this model are strings of bytes, for which [.encode()] always
    succeeds; a Python [str] that holds a lone surrogate makes it raise
    [UnicodeEncodeError], and such a call of [prompt] raises before it does
    anything else. The properties below are about the calls that get past
    this line. *)
Definition cache_key (text : string) (extra_flags : option (list string)) : string :=
  md5 h (text +:+ str_flags h extra_flags).

(** The loop [for attempt in range(self.max_retries)] of [prompt], from
    [attempt] on with [n] iterations to go. It returns the result that
    [prompt] returns from inside the loop, or the [last_error] with
    which the loop ends. *)
Fixpoint attempts (text : string) (extra_flags : option (list string))
    (use_cache : bool) (n : nat) (attempt : Z) (last_error : Val) : M (nat + Val) :=
  match n with
  | O => ret (inr last_error)
  | S n' =>
      (if (0 <? attempt)%Z then sleep (2 ^ attempt) else ret tt) ;;
      let* result := _execute_gemini_command text extra_flags in
      let* success := getitem result "success" in
      if truthy success then
        let* output := getdefault result "output" (VStr "") in
        match len output with
        | None => raise
        | Some response_length =>
            limiter_record_request text response_length ;;
            (if use_cache
             then modify (set_response_cache (<[cache_key text extra_flags := result]>))
             else ret tt) ;;
            let* usage := limiter_get_usage_stats in
            setitem result "usage" (VUsage usage) ;;
            setitem result "attempt" (VInt (attempt + 1)) ;;
            ret (inl result)
        end
      else
        let* error := getitem result "error" in
        attempts text extra_flags use_cache n' (attempt + 1) error
  end.

(** [prompt]; the value is the reference to the dict it returns. *)
Definition prompt (text : string) (extra_flags : option (list string))
    (use_cache : bool) : M nat :=
  let* cache := gets response_cache in
  match (if use_cache then cache !! cache_key text extra_flags else None) with
  | Some cached =>
      setitem cached "from_cache" (VBool true) ;;
      ret cached
  | None =>
      let* (can_proceed, wait_time) := limiter_can_make_request in
      if negb can_proceed then
        let wait := match wait_time with Some w => VInt w | None => VNone end in
        let* usage := limiter_get_usage_stats in
        alloc (<["success" := VBool false]>
              (<["error" := VStr ("Rate limit reached. Please wait " +:+ fmt wait
                                  +:+ " seconds.")]>
              (<["wait_time" := wait]>
              (<["usage" := VUsage usage]> ∅))))
      else
        let* r := attempts text extra_flags use_cache
                    (Z.to_nat (max_retries self)) 0 VNone in
        match r with
        | inl result => ret result
        | inr last_error =>
            let* usage := limiter_get_usage_stats in
            alloc (<["success" := VBool false]>
                  (<["error" := VStr ("Failed after " +:+ str_int (max_retries self)
                                      +:+ " attempts. Last error: " +:+ fmt last_error)]>
                  (<["usage" := VUsage usage]> ∅)))
        end
  end.

(** [prompt_async]: the request goes to the end of the queue. *)
Definition prompt_async (text : string) (callback : option string)
    (extra_flags : option (list string)) : M (gmap string Val) :=
  let* now := gets (py_now h) in
  modify (set_request_queue (λ q, q ++
    [ {| rq_prompt := text; rq_extra_flags := extra_flags;
         rq_callback := callback; rq_timestamp := now |} ])) ;;
  let* q := gets request_queue in
  ret (<["queued" := VBool true]> (<["queue_size" := VInt (Z.of_nat (length q))]> ∅)).

(** One turn of the loop of [_process_queue]. [call] is the call of a
    callback on a result. With an empty queue [get(timeout=1)] raises
    [queue.Empty] and the loop goes on; any other exception is printed
    and the loop goes on. *)
Definition _process_queue (call : string → nat → M unit) : M unit :=
  λ s, match request_queue s with
       | [] => Some (tt, s)
       | request :: rest =>
           let s1 := set_request_queue (λ _, rest) s in
           let body :=
             let* result := prompt (rq_prompt request) (rq_extra_flags request) true in
             match rq_callback request with
             | Some cb => call cb result
             | None => ret tt
             end in
           match body s1 with
           | Some r => Some r
           | None => Some (tt, s1)
           end
       end.

Definition get_usage : M Usage := limiter_get_usage_stats.

(** [batch_prompts]: the loop over the prompts. *)
Fixpoint batch_prompts (prompts : list string) : M (list nat) :=
  match prompts with
  | [] => ret []
  | p :: rest =>
      let* (can_proceed, wait_time) := limiter_can_make_request in
      (if can_proceed then ret tt
       else match wait_time with Some w => sleep w | None => raise end) ;;
      let* result := prompt p None true in
      (match rest with [] => ret tt | _ :: _ => sleep 1 end) ;;
      let* results := batch_prompts rest in
      ret (result :: results)
  end.

End Methods.

End Api.

(** ** The steps of [GeminiAPI.prompt], written out

    The states that one pass through the retry loop goes through, as
    functions of the state before; the facts below show that the methods
    compute them. *)

Module Engine.

Import Py RateLimiter Runtime.

(** The fields of the dict that [_execute_gemini_command] returns. *)
Definition succeeded (out : Outcome) : bool :=
  match out with
  | Exited returncode _ _ => (returncode =? 0)%Z
  | _ => false
  end.

Definition error_text (out : Outcome) : Val :=
  match out with
  | Exited returncode _ stderr => if (returncode =? 0)%Z then VNone else VStr stderr
  | TimeoutExpired => VStr "Command timed out after 5 minutes"
  | Raised msg => VStr msg
  end.

Definition output_text (out : Outcome) : Val :=
  match out with
  | Exited _ stdout _ => VStr stdout
  | _ => VNone
  end.

(** The length that [prompt] records for a successful run. *)
Definition output_length (out : Outcome) : Z :=
  match out with
  | Exited _ stdout _ => Z.of_nat (String.length stdout)
  | _ => 0
  end.

Section Steps.

Context (h : Host) (self : Api.GeminiAPI).

(** After the backoff before [attempt]. *)
Definition slept (attempt : Z) (s : State) : State :=
  if (0 <? attempt)%Z
  then set_now_us (λ t, t + 2 ^ attempt * million)%Z
         (set_effects (λ es, es ++ [Sleep (2 ^ attempt)]) s)
  else s.

(** What the next child process does, and the state when it is done and
    its result dict is made. *)
Definition outcome (cmd : list string) (s : State) : Outcome :=
  (subprocess_run h (calls s) cmd).1.

Definition executed (cmd : list string) (s : State) : State :=
  set_heap (λ objects, objects ++ [Api.outcome_result cmd (outcome cmd s)])
    (set_now_us (λ t, t + (subprocess_run h (calls s) cmd).2)%Z
      (set_calls S (set_effects (λ es, es ++ [Execute cmd]) s))).

(** After the bookkeeping of a successful attempt on [result]. *)
Definition finished (text : string) (extra_flags : option (list string))
    (use_cache : bool) (attempt : Z) (result : nat) (response_length : Z)
    (s : State) : State :=
  let s2 := set_db (record_request (md5 h) (sql_now s) text response_length)
              (set_effects (λ es, es ++ [RecordRequest text response_length]) s) in
  let s3 := if use_cache
            then set_response_cache (<[Api.cache_key h text extra_flags := result]>) s2
            else s2 in
  let usage := get_usage_stats (Api.max_requests self) (sql_now s3) (sql_now s3) (db s3) in
  set_heap (alter (<["attempt" := VInt (attempt + 1)]>) result)
    (set_heap (alter (<["usage" := VUsage usage]>) result)
      (set_effects (λ es, es ++ [GetUsageStats]) s3)).

(** What [prompt] finds in the cache for a request. *)
Definition cached (text : string) (extra_flags : option (list string))
    (use_cache : bool) (s : State) : option nat :=
  if use_cache then response_cache s !! Api.cache_key h text extra_flags else None.

(** The answer of the limiter in a state, and the state after the check
    and after a usage snapshot. *)
Definition admitted (s : State) : bool :=
  (can_make_request (Api.max_requests self) (readings h s) (db s)).1.1.

Definition wait_time (s : State) : option Z :=
  (can_make_request (Api.max_requests self) (readings h s) (db s)).1.2.

Definition checked (s : State) : State :=
  set_effects (λ es, es ++ [CanMakeRequest]) s.

Definition usage_now (s : State) : Usage :=
  get_usage_stats (Api.max_requests self) (sql_now s) (sql_now s) (db s).

Definition surveyed (s : State) : State :=
  set_effects (λ es, es ++ [GetUsageStats]) s.

(** The dicts that [prompt] makes for a denied request and for a request
    whose attempts all failed. *)
Definition denied_result (wait : option Z) (usage : Usage) : gmap string Val :=
  let w := match wait with Some w => VInt w | None => VNone end in
  <["success" := VBool false]>
  (<["error" := VStr ("Rate limit reached. Please wait " +:+ fmt w +:+ " seconds.")]>
  (<["wait_time" := w]>
  (<["usage" := VUsage usage]> ∅))).

Definition failed_result (last_error : Val) (usage : Usage) : gmap string Val :=
  <["success" := VBool false]>
  (<["error" := VStr ("Failed after " +:+ str_int (Api.max_retries self)
                      +:+ " attempts. Last error: " +:+ fmt last_error)]>
  (<["usage" := VUsage usage]> ∅)).

(** What [n] failed attempts from [attempt] on do: a backoff before each
    attempt but attempt 0, and a child process. *)
Fixpoint failed_attempts (cmd : list string) (n : nat) (attempt : Z) : list Effect :=
  match n with
  | O => []
  | S n' =>
      (if (0 <? attempt)%Z then [Sleep (2 ^ attempt)] else [])
        ++ Execute cmd :: failed_attempts cmd n' (attempt + 1)
  end.

(** The state after [n] failed attempts from [attempt] on, and the
    [last_error] that [prompt] then holds. *)
Fixpoint after_failures (cmd : list string) (n : nat) (attempt : Z) (s : State) : State :=
  match n with
  | O => s
  | S n' => after_failures cmd n' (attempt + 1) (executed cmd (slept attempt s))
  end.

Definition last_error_after (cmd : list string) (n : nat) (last_error : Val)
    (s : State) : Val :=
  match n with
  | O => last_error
  | S n' => error_text (subprocess_run h (calls s + n') cmd).1
  end.

(** Calls of [prompt], one after the other. *)
Fixpoint prompts (requests : list (string * option (list string) * bool))
    : M (list nat) :=
  match requests with
  | [] => ret []
  | (text, extra_flags, use_cache) :: rest =>
      let* r := Api.prompt h self text extra_flags use_cache in
      let* rs := prompts rest in
      ret (r :: rs)
  end.

End Steps.

(** A dict and the same dict after a cache hit has marked it. *)
Definition marked (d d' : gmap string Val) : Prop :=
  d' = d ∨ d' = <["from_cache" := VBool true]> d.

(** What calls of [prompt] leave in place: the objects that exist (a
    cache hit marks them), the cache entries, the job registry, the queue
    and the batch threads. *)
Record extends (s s' : State) : Prop := {
  ext_heap : ∀ l d, heap s !! l = Some d → ∃ d', heap s' !! l = Some d' ∧ marked d d';
  ext_cache : ∀ k l, response_cache s !! k = Some l → response_cache s' !! k = Some l;
  ext_jobs : job_results s' = job_results s;
  ext_queue : request_queue s' = request_queue s;
  ext_threads : batch_threads s' = batch_threads s
}.

End Engine.

(** ** gemini_server: the job registry and the handlers that touch it *)

Module Server.

Import Py RateLimiter Runtime.

(** [gemini = GeminiAPI(auto_approve=True, checkpointing=True)] *)
Definition gemini : Api.GeminiAPI :=
  {| Api.auto_approve := true; Api.checkpointing := true;
     Api.max_retries := 3; Api.max_requests := 950 |}.

(** What a handler answers. *)
Inductive Reply :=
| Json (body : gmap string Val)
| NotFound
| Nothing.

Section Handlers.

Context (h : Host).

Definition now_iso : M Val := gets (λ s, VStr (isoformat h (py_now h s))).

(** The closure [callback(result)] that [prompt_async] makes for
    [job_id]. *)
Definition callback (job_id : string) (result : nat) : M unit :=
  let* completed_at := now_iso in
  modify (set_job_results
    (<[job_id := <["status" := VStr "completed"]>
                 (<["result" := VRef result]>
                 (<["completed_at" := completed_at]> ∅))]>)).

(** POST /prompt/async with a body that has a prompt; [job_id] is the
    value of [uuid.uuid4()]. *)
Definition prompt_async (job_id : string) (text : string)
    (extra_flags : option (list string)) : M Reply :=
  let* started_at := now_iso in
  modify (set_job_results
    (<[job_id := <["status" := VStr "processing"]>
                 (<["started_at" := started_at]> ∅)]>)) ;;
  Api.prompt_async h text (Some job_id)
    (Some (match extra_flags with Some flags => flags | None => [] end)) ;;
  ret (Json (<["job_id" := VStr job_id]>
            (<["status" := VStr "queued"]>
            (<["check_url" := VStr ("/job/" +:+ job_id)]> ∅)))).

(** GET /job/<job_id> *)
Definition get_job (job_id : string) : M Reply :=
  let* jobs := gets job_results in
  match jobs !! job_id with
  | None => ret NotFound
  | Some job => ret (Json job)
  end.

(** POST /prompt with a body that has a prompt; the reply is the result
    dict as it is when [jsonify] reads it. *)
Definition prompt (text : string) (extra_flags : option (list string))
    (use_cache : option bool) : M Reply :=
  let* result := Api.prompt h gemini text
                   (Some (match extra_flags with Some flags => flags | None => [] end))
                   (match use_cache with Some b => b | None => true end) in
  let* objects := gets heap in
  match objects !! result with
  | Some d => ret (Json d)
  | None => raise
  end.

(** POST /cache/clear *)
Definition clear_cache : M Reply :=
  modify (set_response_cache (λ _, ∅)) ;;
  ret (Json (<["message" := VStr "Cache cleared"]> (<["status" := VStr "success"]> ∅))).

(** POST /batch with a list of prompts: the job is registered and the
    thread [process_batch] is started. *)
Definition batch (job_id : string) (prompts : list string) : M Reply :=
  let* started_at := now_iso in
  modify (set_job_results
    (<[job_id := <["status" := VStr "processing"]>
                 (<["total_prompts" := VInt (Z.of_nat (length prompts))]>
                 (<["started_at" := started_at]> ∅))]>)) ;;
  modify (set_batch_threads (<[job_id := prompts]>)) ;;
  ret (Json (<["job_id" := VStr job_id]>
            (<["status" := VStr "processing"]>
            (<["total_prompts" := VInt (Z.of_nat (length prompts))]>
            (<["check_url" := VStr ("/job/" +:+ job_id)]> ∅))))).

(** The thread [process_batch] of the job [job_id], run to its end. *)
Definition process_batch (job_id : string) : M Reply :=
  let* threads := gets batch_threads in
  match threads !! job_id with
  | None => ret Nothing
  | Some prompts =>
      modify (set_batch_threads (delete job_id)) ;;
      let* results := Api.batch_prompts h gemini prompts in
      let* completed_at := now_iso in
      modify (set_job_results
        (<[job_id := <["status" := VStr "completed"]>
                     (<["results" := VRefs results]>
                     (<["completed_at" := completed_at]> ∅))]>)) ;;
      ret Nothing
  end.

(** One turn of the worker thread of [gemini]. *)
Definition worker : M Reply :=
  Api._process_queue h gemini callback ;; ret Nothing.

(** What can happen in the server process, one at a time: the turns of
    the worker thread and of the batch threads, and the requests that
    the handlers serve. *)
Inductive Action :=
| PostPromptAsync (job_id : string) (text : string) (extra_flags : option (list string))
| Worker
| GetJob (job_id : string)
| PostPrompt (text : string) (extra_flags : option (list string)) (use_cache : option bool)
| PostCacheClear
| PostBatch (job_id : string) (prompts : list string)
| ProcessBatch (job_id : string).

Definition perform (a : Action) : M Reply :=
  match a with
  | PostPromptAsync job_id text extra_flags => prompt_async job_id text extra_flags
  | Worker => worker
  | GetJob job_id => get_job job_id
  | PostPrompt text extra_flags use_cache => prompt text extra_flags use_cache
  | PostCacheClear => clear_cache
  | PostBatch job_id prompts => batch job_id prompts
  | ProcessBatch job_id => process_batch job_id
  end.

(** [uuid.uuid4()] gives an identifier that no job has. *)
Definition enabled (a : Action) (s : State) : bool :=
  match a with
  | PostPromptAsync job_id _ _ | PostBatch job_id _ =>
      bool_decide (job_results s !! job_id = None)
  | _ => true
  end.

Definition step (a : Action) (s : State) : option (Reply * State) :=
  if enabled a s then perform a s else None.

(** A run: the replies and the states after each action. *)
Fixpoint run_actions (acts : list Action) (s : State) : option (list (Reply * State)) :=
  match acts with
  | [] => Some []
  | a :: acts' =>
      match step a s with
      | None => None
      | Some (r, s') =>
          match run_actions acts' s' with
          | None => None
          | Some rest => Some ((r, s') :: rest)
          end
      end
  end.

(** The status that a poller reads for a job in a state. *)
Definition status (job_id : string) (s : State) : option Val :=
  job_results s !! job_id ≫= (.!! "status").

End Handlers.

(** The jobs whose callback waits in the queue. *)
Definition queued_jobs (s : State) : list string :=
  omap rq_callback (request_queue s).

(** How the status of a job may differ between an earlier and a later
    state: not registered yet, then processing, then completed. *)
Inductive forward : option Val → option Val → Prop :=
| forward_same (v : option Val) : forward v v
| forward_registered : forward None (Some (VStr "processing"))
| forward_completed : forward (Some (VStr "processing")) (Some (VStr "completed"))
| forward_through : forward None (Some (VStr "completed")).

(** Between an earlier state [s] and a later state [s']: every status moved
    forward, and the record of a completed job is the same. *)
Definition moved (s s' : State) : Prop :=
  ∀ job_id,
    forward (status job_id s) (status job_id s')
    ∧ (status job_id s = Some (VStr "completed") →
       job_results s' !! job_id = job_results s !! job_id).

(** What holds of the registry, the queue and the batch threads in every
    state of a run. *)
Record registry_ok (s : State) : Prop := {
  ok_nodup : NoDup (queued_jobs s);
  ok_queued : ∀ j, j ∈ queued_jobs s → status j s = Some (VStr "processing");
  ok_threads : ∀ j ps, batch_threads s !! j = Some ps → status j s = Some (VStr "processing");
  ok_disjoint : ∀ j, j ∈ queued_jobs s → batch_threads s !! j = None;
  ok_status : ∀ j d, job_results s !! j = Some d →
                d !! "status" = Some (VStr "processing")
                ∨ d !! "status" = Some (VStr "completed")
}.

(** The server right after start: nothing cached, queued or registered. *)
Definition started (now : Z) (d : Database) : State := initial now d.

End Server.

(** ** Concrete hosts and inputs used below *)

Module Scenario.

Import Py RateLimiter Runtime.

(** A host whose command fails on its first [k] runs and succeeds
    afterwards; digests are the text itself. *)
Definition flaky (k : nat) : Host :=
  {| md5 := λ s, s;
     str_flags := λ fl, match fl with
                        | None => "None"
                        | Some l => "[" +:+ String.concat ", " l +:+ "]"
                        end;
     subprocess_run := λ n _,
       if (n <? k)%nat then (Exited 1 "partial" "boom", 1000000%Z)
       else (Exited 0 "hello" "", 1000000%Z);
     utc_offset_us := 0;
     isoformat := λ t, str_int t |}.

Definition api (retries quota : Z) : Api.GeminiAPI :=
  {| Api.auto_approve := true; Api.checkpointing := true;
     Api.max_retries := retries; Api.max_requests := quota |}.

Definition row (t : Z) : RateRecord :=
  {| rr_id := 1; rr_timestamp := t; rr_prompt_hash := "x"; rr_response_length := 0 |}.

Definition at_time (t : Z) : Readings :=
  {| at_delete := t; at_count := t; at_min := t; py_now_us := t * 1000000 |}.

(** The limiter with an empty table at time 0. *)
Definition start : Sys := {| sys_db := init_db; sys_pending := []; sys_time := 0 |}.

(** Two requests that are both checked before either records. *)
Definition interleaved : list Event :=
  [EvAdmit 1 (at_time 0); EvAdmit 2 (at_time 0);
   EvRecord 1 1 "a" 5; EvRecord 2 1 "b" 5].

(** Three requests, one after the other: the first is allowed and all its
    attempts fail, the second is allowed and records, the third is denied. *)
Definition serial_with_failure : list Event :=
  [EvAdmit 1 (at_time 0); EvGiveUp 1 1; EvAdmit 2 (at_time 2);
   EvRecord 2 3 "b" 5; EvAdmit 3 (at_time 4)].

(** A table with a row that has left the window of second 4200 and a row
    that is in it until second 7600. *)
Definition crowded : Database :=
  {| db_rows :=
       [ {| rr_id := 1; rr_timestamp := 100; rr_prompt_hash := "x";
            rr_response_length := 5 |};
         {| rr_id := 2; rr_timestamp := 4000; rr_prompt_hash := "y";
            rr_response_length := 5 |} ];
     db_last_id := 2 |}.

(** The readings of a call at UTC second [t] on a host whose local clock,
    the one that [datetime.now()] reads, is two hours ahead of UTC. *)
Definition two_hours_ahead (t : Z) : Readings :=
  {| at_delete := t; at_count := t; at_min := t;
     py_now_us := (t + 7200) * 1000000 |}.

(** A process at time 0 whose table holds one row of the last hour. *)
Definition busy : State :=
  initial 0 {| db_rows := [row 0]; db_last_id := 1 |}.

(** A client that enqueues a job and polls it before and after the worker
    has run. *)
Definition polling : list Server.Action :=
  [Server.PostPromptAsync "job-1" "hi" None; Server.GetJob "job-1";
   Server.Worker; Server.GetJob "job-1"].

End Scenario.


(** ** Further definitions used by the properties of the rest of the code *)

Module More.

Import Py RateLimiter Runtime Engine.

(** All the clocks of one call of [can_make_request] show the instant
    [now], a whole second. *)
Definition on_the_second (now : Z) : Readings :=
  {| at_delete := now; at_count := now; at_min := now; py_now_us := now * million |}.

(** The rows of the table carry distinct ids, none above the AUTOINCREMENT
    counter. *)
Definition ids_ok (d : Database) : Prop :=
  NoDup (rr_id <$> db_rows d) ∧ ∀ r, r ∈ db_rows d → (rr_id r ≤ db_last_id d)%Z.

(** Every cache entry refers to a result dict of a successful run. *)
Definition cache_sound (s : State) : Prop :=
  ∀ k l, response_cache s !! k = Some l →
    ∃ d, heap s !! l = Some d ∧ d !! "success" = Some (VBool true).

(** From the instant of a state on, the rows of the trailing hour are at
    most the quota of [self]. *)
Definition in_quota (self : Api.GeminiAPI) (s : State) : Prop :=
  ∀ now, (sql_now s ≤ now)%Z → (sql_count_recent now (db s) ≤ Api.max_requests self)%Z.

(** No child process takes a negative time. *)
Definition time_passes (h : Host) : Prop :=
  ∀ n cmd, (0 ≤ (subprocess_run h n cmd).2)%Z.

(** The seconds spent in [time.sleep] by a sequence of effects. *)
Fixpoint slept_for (es : list Effect) : Z :=
  match es with
  | [] => 0
  | Sleep seconds :: es' => seconds + slept_for es'
  | _ :: es' => slept_for es'
  end.

(** [n] turns of the worker thread of the server, one after the other. *)
Fixpoint worker_turns (h : Host) (n : nat) : M unit :=
  match n with
  | O => ret tt
  | S n' => Server.worker h ;; worker_turns h n'
  end.

End More.
(** * Properties *)

(** ** The sliding window of the rate limiter *)

Module LimiterFacts.

Import Py RateLimiter.

Lemma count_rows_cons (now : Z) (r : RateRecord) (rows : list RateRecord) (last : Z) :
  sql_count_recent now {| db_rows := r :: rows; db_last_id := last |}
  = ((if decide (rr_timestamp r > now - hour)%Z then 1 else 0)
     + sql_count_recent now {| db_rows := rows; db_last_id := last |})%Z.
Proof.
  unfold sql_count_recent, recent. simpl. rewrite filter_cons.
  destruct (decide _); simpl; lia.
Qed.

Lemma count_recent_nonneg (now : Z) (d : Database) : (0 ≤ sql_count_recent now d)%Z.
Proof. unfold sql_count_recent. lia. Qed.

(** The window only loses rows as the clock advances. *)
Lemma count_recent_antitone (now now' : Z) (d : Database) :
  (now ≤ now')%Z → (sql_count_recent now' d ≤ sql_count_recent now d)%Z.
Proof.
  intros Hle. destruct d as [rows last].
  induction rows as [|r rows IH].
  - reflexivity.
  - rewrite !count_rows_cons.
    destruct (decide (rr_timestamp r > now' - hour)%Z);
      destruct (decide (rr_timestamp r > now - hour)%Z); lia.
Qed.

(** The rows that the DELETE removes are not rows that a later COUNT of
    the same connection would have counted. *)
Lemma count_recent_after_delete (t now : Z) (d : Database) :
  (t ≤ now)%Z → sql_count_recent now (sql_delete_old t d) = sql_count_recent now d.
Proof.
  intros Hle. destruct d as [rows last]. unfold sql_delete_old. simpl.
  induction rows as [|r rows IH].
  - reflexivity.
  - rewrite filter_cons. destruct (decide _) as [Hkeep|Hdrop].
    + rewrite !count_rows_cons, IH. reflexivity.
    + rewrite count_rows_cons, IH.
      destruct (decide (rr_timestamp r > now - hour)%Z); [|lia].
      exfalso. apply Hdrop. unfold hour in *. lia.
Qed.

Lemma count_recent_after_insert (now t : Z) (ph : string) (n : Z) (d : Database) :
  sql_count_recent now (sql_insert t ph n d)
  = (sql_count_recent now d + (if decide (t > now - hour)%Z then 1 else 0))%Z.
Proof.
  unfold sql_count_recent, recent, sql_insert. simpl.
  rewrite filter_app, length_app, filter_cons, filter_nil. simpl.
  destruct (decide _); simpl; lia.
Qed.

Lemma can_make_request_keeps_file (max_requests : Z) (ck : Readings) (d : Database) :
  (can_make_request max_requests ck d).2 = d.
Proof.
  unfold can_make_request.
  destruct (_ <? _)%Z; [reflexivity|]. destruct (sql_min_recent _ _); reflexivity.
Qed.

Lemma can_make_request_allowed (max_requests : Z) (ck : Readings) (d : Database) w :
  (can_make_request max_requests ck d).1 = (true, w) →
  (sql_count_recent (at_count ck) (sql_delete_old (at_delete ck) d) < max_requests)%Z.
Proof.
  unfold can_make_request.
  destruct (_ <? _)%Z eqn:Hlt.
  - intros _. lia.
  - destruct (sql_min_recent _ _); simpl; congruence.
Qed.

Lemma can_make_request_denied (max_requests : Z) (ck : Readings) (d : Database) w :
  (can_make_request max_requests ck d).1 = (false, w) →
  (max_requests ≤ sql_count_recent (at_count ck) (sql_delete_old (at_delete ck) d))%Z
  ∧ w = Some (match sql_min_recent (at_min ck) d with
              | Some oldest => Z.max 1 (seconds_until_expiry oldest (py_now_us ck))
              | None => 60%Z
              end).
Proof.
  unfold can_make_request.
  destruct (_ <? _)%Z eqn:Hlt.
  - simpl. congruence.
  - destruct (sql_min_recent _ _); simpl; intros [= <-]; split; (lia || reflexivity).
Qed.

(** [minimum] gives a least element of the list, and [None] only for the
    empty list. *)
Lemma minimum_spec (ts : list Z) :
  match minimum ts with
  | Some m => m ∈ ts ∧ ∀ t, t ∈ ts → (m ≤ t)%Z
  | None => ts = []
  end.
Proof.
  induction ts as [|t ts IH]; simpl.
  - reflexivity.
  - destruct (minimum ts) as [m|].
    + destruct IH as [Hin Hmin]. split.
      * destruct (Z.min_spec t m) as [[_ ->]|[_ ->]]; [left | right; exact Hin].
      * intros t' [->|Hin']%elem_of_cons; [lia|]. specialize (Hmin _ Hin'). lia.
    + subst ts. split; [left|]. intros t' [->|Hin']%elem_of_cons; [lia|].
      inversion Hin'.
Qed.

Lemma reserved_within_quota (max_requests : Z) (s : Sys) :
  reserved max_requests s → within_quota max_requests s.
Proof. intros H now Hnow. specialize (H now Hnow). lia. Qed.

Lemma filter_out_member_shorter (req : nat) (l : list nat) :
  req ∈ l → (length (filter (λ r, r ≠ req) l) < length l)%nat.
Proof.
  induction l as [|x l IH]; intros Hin.
  - inversion Hin.
  - rewrite filter_cons. destruct (decide (x ≠ req)) as [Hne|Heq]; simpl.
    + apply elem_of_cons in Hin as [->|Hin]; [congruence|].
      specialize (IH Hin). lia.
    + pose proof (length_filter (λ r, r ≠ req) l). lia.
Qed.

Lemma step_reserved (md5 : string → string) (max_requests : Z) (extra : nat)
    (e : Event) (s s' : Sys) :
  step md5 max_requests e s = Some s' →
  overlap_at_most (S extra) s' →
  reserved (max_requests + Z.of_nat extra) s →
  reserved (max_requests + Z.of_nat extra) s'.
Proof.
  intros Hstep Hone Hres. unfold overlap_at_most in Hone.
  destruct e as [req ck | req t prompt n | req t]; simpl in Hstep.
  - destruct (_ && _) eqn:Hguard; [|discriminate].
    apply andb_prop in Hguard as [Hguard _].
    apply andb_prop in Hguard as [Htime Hord].
    apply bool_decide_eq_true in Htime.
    apply andb_prop in Hord as [Hdc Hcm].
    apply bool_decide_eq_true in Hdc. apply bool_decide_eq_true in Hcm.
    destruct (can_make_request max_requests ck (sys_db s)) as [[allowed w] d] eqn:Hcan.
    pose proof (can_make_request_keeps_file max_requests ck (sys_db s)) as Hfile.
    rewrite Hcan in Hfile. simpl in Hfile. subst d.
    injection Hstep as <-. destruct allowed.
    + pose proof (can_make_request_allowed max_requests ck (sys_db s) w) as Hlt.
      rewrite Hcan in Hlt. specialize (Hlt eq_refl).
      rewrite count_recent_after_delete in Hlt by exact Hdc.
      intros now Hnow. simpl in *.
      pose proof (count_recent_antitone (at_count ck) now (sys_db s) Hnow).
      lia.
    + intros now Hnow. simpl in *. apply Hres. lia.
  - destruct (_ && _) eqn:Hguard; [|discriminate].
    apply andb_prop in Hguard as [Htime Hin].
    apply bool_decide_eq_true in Htime. apply bool_decide_eq_true in Hin.
    injection Hstep as <-. intros now Hnow. simpl in *.
    unfold record_request. rewrite count_recent_after_insert.
    pose proof (filter_out_member_shorter req (sys_pending s) Hin).
    assert (sys_time s ≤ now)%Z as Hnow' by lia. specialize (Hres now Hnow').
    destruct (decide _); lia.
  - destruct (_ && _) eqn:Hguard; [|discriminate].
    apply andb_prop in Hguard as [Htime Hin].
    apply bool_decide_eq_true in Htime. apply bool_decide_eq_true in Hin.
    injection Hstep as <-. intros now Hnow. simpl in *.
    pose proof (filter_out_member_shorter req (sys_pending s) Hin).
    assert (sys_time s ≤ now)%Z as Hnow' by lia. specialize (Hres now Hnow').
    lia.
Qed.

(** C1, as amended. Requests go through the limiter as [prompt] sends them:
    each is checked by [can_make_request] and, if allowed, later either
    records with [record_request] or, when its attempts all failed, returns
    without recording. When the clock does not run backwards, the store
    starts within the quota and at no point more than [extra + 1] allowed
    requests are between their check and their record or failure, then
    after every call of the limiter and after every failed request, and
    from then on until the next event, the number of rows with a timestamp
    in the trailing 3600 seconds is at most [max_requests + extra]. With
    [extra = 0], requests going one at a time, it is at most
    [max_requests]. *)
Theorem quota_exceeded_by_overlap_only (md5 : string → string) (max_requests : Z)
    (extra : nat) (es : list Event) (s : Sys) (ss : list Sys) :
  within_quota max_requests s →
  sys_pending s = [] →
  trajectory md5 max_requests es s = Some ss →
  Forall (overlap_at_most (S extra)) ss →
  Forall (within_quota (max_requests + Z.of_nat extra)) ss.
Proof.
  intros Hq Hp. assert (reserved (max_requests + Z.of_nat extra) s) as Hres.
  { intros now Hnow. rewrite Hp. specialize (Hq now Hnow). simpl. lia. }
  clear Hq Hp. revert s ss Hres.
  induction es as [|e es IH]; intros s ss Hres Htraj Hone; simpl in Htraj.
  - injection Htraj as <-. constructor.
  - destruct (step md5 max_requests e s) as [s'|] eqn:Hstep; [|discriminate].
    destruct (trajectory md5 max_requests es s') as [ss'|] eqn:Hrest; [|discriminate].
    injection Htraj as <-. inversion Hone as [|? ? Hone1 Hone2]; subst.
    assert (reserved (max_requests + Z.of_nat extra) s') as Hres'
      by (eapply step_reserved; eauto).
    constructor.
    + apply reserved_within_quota, Hres'.
    + eapply IH; eauto.
Qed.

(** The wait of a denial as the code computes it: when the second query
    finds rows in the trailing hour, the whole seconds (truncated) from the
    reading of Python's local clock to one hour after the oldest of these
    rows, and at least 1; when it finds no row, 60. *)
Lemma denied_wait_formula (max_requests : Z) (ck : Readings) (d d' : Database)
    (wait : option Z) :
  can_make_request max_requests ck d = ((false, wait), d') →
  (recent (at_min ck) d = [] → wait = Some 60%Z)
  ∧ (recent (at_min ck) d ≠ [] →
     ∃ oldest,
       oldest ∈ rr_timestamp <$> recent (at_min ck) d
       ∧ (∀ r, r ∈ recent (at_min ck) d → (oldest ≤ rr_timestamp r)%Z)
       ∧ wait = Some (Z.max 1 (((oldest + 3600) * 1000000 - py_now_us ck) ÷ 1000000))
       ∧ (∀ now, py_now_us ck = (now * 1000000)%Z →
            wait = Some (Z.max 1 (oldest + 3600 - now)))).
Proof.
  intros Hcan.
  pose proof (can_make_request_denied max_requests ck d wait) as Hden.
  rewrite Hcan in Hden. destruct (Hden eq_refl) as [_ ->]. clear Hden Hcan.
  unfold sql_min_recent.
  pose proof (minimum_spec (rr_timestamp <$> recent (at_min ck) d)) as Hmin.
  destruct (minimum _) as [oldest|].
  - destruct Hmin as [Hin Hleast]. split.
    + intros Hnil. rewrite Hnil in Hin. inversion Hin.
    + intros _. exists oldest. split; [exact Hin|]. split.
      * intros r Hr. apply Hleast. apply list_elem_of_fmap. eauto.
      * split; [reflexivity|]. intros now Hpy. unfold seconds_until_expiry.
        rewrite Hpy. unfold hour, million. do 2 f_equal.
        replace ((oldest + 3600) * 1000000 - now * 1000000)%Z
          with ((oldest + 3600 - now) * 1000000)%Z by lia.
        apply Z.quot_mul. lia.
  - split; [reflexivity|]. intros Hne. apply fmap_nil_inv in Hmin. contradiction.
Qed.

End LimiterFacts.

(** ** The executor and the retry loop *)

Module EngineFacts.

Import Py RateLimiter Runtime Engine.

Lemma result_success (cmd : list string) (out : Outcome) :
  Api.outcome_result cmd out !! "success" = Some (VBool (succeeded out)).
Proof. destruct out; reflexivity. Qed.

Lemma result_error (cmd : list string) (out : Outcome) :
  Api.outcome_result cmd out !! "error" = Some (error_text out).
Proof. destruct out; reflexivity. Qed.

Lemma result_output (cmd : list string) (out : Outcome) :
  Api.outcome_result cmd out !! "output" = Some (output_text out).
Proof. destruct out; reflexivity. Qed.

Lemma succeeded_exit_zero (out : Outcome) :
  succeeded out = true ↔ ∃ stdout stderr, out = Exited 0 stdout stderr.
Proof.
  split.
  - destruct out as [rc so se| |]; simpl; try discriminate.
    intros Hrc%Z.eqb_eq. subst. eauto.
  - intros (so & se & ->). reflexivity.
Qed.

Section Loop.

Context (h : Host) (self : Api.GeminiAPI).

Lemma execute_eq (text : string) (extra_flags : option (list string)) (s : State) :
  Api._execute_gemini_command h self text extra_flags s
  = Some (length (heap s), executed h (Api.command self text extra_flags) s).
Proof.
  unfold Api._execute_gemini_command, executed, outcome, bind, run, alloc.
  destruct (subprocess_run h (calls s) _) as [out elapsed]. reflexivity.
Qed.

Lemma bind_eq {A B} (m : M A) (k : A → M B) (s s' : State) (a : A) :
  m s = Some (a, s') → bind m k s = k a s'.
Proof. unfold bind. intros ->. reflexivity. Qed.

Lemma backoff_eq (attempt : Z) (s : State) :
  (if (0 <? attempt)%Z then sleep (2 ^ attempt) else ret tt) s
  = Some (tt, slept attempt s).
Proof. unfold slept. destruct (0 <? attempt)%Z; reflexivity. Qed.

Lemma heap_slept (attempt : Z) (s : State) : heap (slept attempt s) = heap s.
Proof. unfold slept. destruct (0 <? attempt)%Z; reflexivity. Qed.

Lemma heap_executed (cmd : list string) (s : State) :
  heap (executed h cmd s) = heap s ++ [Api.outcome_result cmd (outcome h cmd s)].
Proof. reflexivity. Qed.

Lemma lookup_executed (cmd : list string) (s : State) :
  heap (executed h cmd s) !! length (heap s)
  = Some (Api.outcome_result cmd (outcome h cmd s)).
Proof. rewrite heap_executed. apply list_lookup_middle. reflexivity. Qed.

Lemma getitem_executed (cmd : list string) (s : State) (k : string) (v : Val) :
  Api.outcome_result cmd (outcome h cmd s) !! k = Some v →
  getitem (length (heap s)) k (executed h cmd s) = Some (v, executed h cmd s).
Proof. intros Hk. unfold getitem. rewrite lookup_executed. simpl. rewrite Hk. reflexivity. Qed.

(** One pass through the loop of [prompt]. *)
Lemma attempts_step (text : string) (extra_flags : option (list string))
    (use_cache : bool) (n : nat) (attempt : Z) (last_error : Val) (s : State) :
  let cmd := Api.command self text extra_flags in
  let s0 := slept attempt s in
  let out := outcome h cmd s0 in
  Api.attempts h self text extra_flags use_cache (S n) attempt last_error s
  = if succeeded out
    then Some (inl (length (heap s)),
               finished h self text extra_flags use_cache attempt (length (heap s))
                 (output_length out) (executed h cmd s0))
    else Api.attempts h self text extra_flags use_cache n (attempt + 1)
           (error_text out) (executed h cmd s0).
Proof.
  intros cmd s0 out. simpl.
  rewrite (bind_eq _ _ s s0 tt) by apply backoff_eq.
  rewrite (bind_eq _ _ s0 (executed h cmd s0) (length (heap s0))) by apply execute_eq.
  rewrite (bind_eq _ _ _ (executed h cmd s0) (VBool (succeeded out)))
    by apply getitem_executed, result_success.
  replace (length (heap s0)) with (length (heap s)) by (unfold s0; rewrite heap_slept; done).
  simpl. destruct (succeeded out) eqn:Hok.
  - apply succeeded_exit_zero in Hok as (so & se & Hout).
    unfold getdefault at 1. unfold bind at 1.
    replace (length (heap s)) with (length (heap s0)) by (unfold s0; rewrite heap_slept; done).
    rewrite lookup_executed. fold out. rewrite Hout. simpl.
    unfold finished. destruct use_cache; reflexivity.
  - replace (length (heap s)) with (length (heap s0)) by (unfold s0; rewrite heap_slept; done).
    rewrite (bind_eq _ _ _ (executed h cmd s0) (error_text out))
      by apply getitem_executed, result_error.
    reflexivity.
Qed.

Lemma prompt_hit (text : string) (extra_flags : option (list string))
    (use_cache : bool) (s : State) (l : nat) :
  cached h text extra_flags use_cache s = Some l →
  Api.prompt h self text extra_flags use_cache s
  = Some (l, set_heap (alter (<["from_cache" := VBool true]>) l) s).
Proof.
  unfold cached, Api.prompt. intros Hc. unfold bind at 1, gets. rewrite Hc. reflexivity.
Qed.

Lemma limiter_check_eq (s : State) :
  Api.limiter_can_make_request h self s
  = Some ((admitted h self s, wait_time h self s), checked s).
Proof.
  unfold Api.limiter_can_make_request, admitted, wait_time, checked.
  pose proof (LimiterFacts.can_make_request_keeps_file
                (Api.max_requests self) (readings h s) (db s)) as Hfile.
  destruct (can_make_request _ _ _) as [[a w] d]. simpl in *. subst d. reflexivity.
Qed.

Lemma prompt_denied (text : string) (extra_flags : option (list string))
    (use_cache : bool) (s : State) :
  cached h text extra_flags use_cache s = None →
  admitted h self s = false →
  Api.prompt h self text extra_flags use_cache s
  = Some (length (heap s),
          set_heap (λ objects, objects ++
                      [denied_result (wait_time h self s) (usage_now self (checked s))])
            (surveyed (checked s))).
Proof.
  unfold cached, Api.prompt. intros Hc Hden. unfold bind at 1, gets. rewrite Hc.
  rewrite (bind_eq _ _ _ _ _ (limiter_check_eq s)). rewrite Hden. reflexivity.
Qed.

Lemma prompt_admitted (text : string) (extra_flags : option (list string))
    (use_cache : bool) (s : State) :
  cached h text extra_flags use_cache s = None →
  admitted h self s = true →
  Api.prompt h self text extra_flags use_cache s
  = match Api.attempts h self text extra_flags use_cache
            (Z.to_nat (Api.max_retries self)) 0 VNone (checked s) with
    | Some (inl result, s') => Some (result, s')
    | Some (inr last_error, s') =>
        Some (length (heap s'),
              set_heap (λ objects, objects ++
                          [failed_result self last_error (usage_now self s')])
                (surveyed s'))
    | None => None
    end.
Proof.
  unfold cached, Api.prompt. intros Hc Hadm. unfold bind at 1, gets. rewrite Hc.
  rewrite (bind_eq _ _ _ _ _ (limiter_check_eq s)). rewrite Hadm. simpl.
  unfold bind at 1.
  destruct (Api.attempts _ _ _ _ _ _ _ _ _) as [[[result|last_error] s']|]; reflexivity.
Qed.

Lemma marked_refl (d : gmap string Val) : marked d d.
Proof. left. reflexivity. Qed.

Lemma marked_trans (d1 d2 d3 : gmap string Val) :
  marked d1 d2 → marked d2 d3 → marked d1 d3.
Proof.
  intros [->| ->] [->| ->]; [left | right | right | right]; try reflexivity.
  apply insert_insert_eq.
Qed.

Lemma marked_lookup (d d' : gmap string Val) (k : string) :
  marked d d' → k ≠ "from_cache" → d' !! k = d !! k.
Proof. intros [->| ->] Hk; [reflexivity|]. apply lookup_insert_ne. congruence. Qed.

Lemma marked_again (d d' : gmap string Val) :
  marked d d' →
  <["from_cache" := VBool true]> d' = <["from_cache" := VBool true]> d.
Proof. intros [->| ->]; [reflexivity|]. apply insert_insert_eq. Qed.

Lemma extends_refl (s : State) : extends s s.
Proof. split; eauto using marked_refl. Qed.

Lemma extends_trans (s1 s2 s3 : State) : extends s1 s2 → extends s2 s3 → extends s1 s3.
Proof.
  intros [H1 C1 J1 Q1 T1] [H2 C2 J2 Q2 T2]. split.
  - intros l d Hl. destruct (H1 l d Hl) as (d' & Hl' & Hm).
    destruct (H2 l d' Hl') as (d'' & Hl'' & Hm'). eauto using marked_trans.
  - eauto.
  - congruence.
  - congruence.
  - congruence.
Qed.

Lemma extends_slept (attempt : Z) (s : State) : extends s (slept attempt s).
Proof. unfold slept. destruct (0 <? attempt)%Z; split; eauto using marked_refl. Qed.

Lemma extends_alloc (d0 : gmap string Val) (s s' : State) :
  heap s' = heap s ++ [d0] →
  response_cache s' = response_cache s → job_results s' = job_results s →
  request_queue s' = request_queue s → batch_threads s' = batch_threads s →
  extends s s'.
Proof.
  intros Hh Hc Hj Hq Ht. split; try assumption.
  - intros l d Hl. exists d. split; [|apply marked_refl].
    rewrite Hh. rewrite lookup_app_l; [exact Hl|]. eapply lookup_lt_Some, Hl.
  - intros k l. rewrite Hc. done.
Qed.

Lemma extends_executed (cmd : list string) (s : State) : extends s (executed h cmd s).
Proof. eapply extends_alloc; reflexivity. Qed.

Lemma extends_finished (text : string) (extra_flags : option (list string))
    (use_cache : bool) (attempt : Z) (result : nat) (n : Z) (s0 s : State) :
  extends s0 s →
  (length (heap s0) ≤ result)%nat →
  (use_cache = true → response_cache s !! Api.cache_key h text extra_flags = None) →
  extends s0 (finished h self text extra_flags use_cache attempt result n s).
Proof.
  intros [H1 C1 J1 Q1 T1] Hres Hmiss. split.
  - intros l d Hl. destruct (H1 l d Hl) as (d' & Hl' & Hm). exists d'. split; [|done].
    assert (l < length (heap s0)) by (eapply lookup_lt_Some, Hl).
    unfold finished. destruct use_cache; simpl;
      rewrite !list_lookup_alter_ne by lia; exact Hl'.
  - intros k l Hk. specialize (C1 k l Hk). unfold finished.
    destruct use_cache; simpl; [|exact C1].
    rewrite lookup_insert_ne; [exact C1|]. intros <-.
    rewrite Hmiss in C1 by reflexivity. discriminate.
  - unfold finished. destruct use_cache; exact J1.
  - unfold finished. destruct use_cache; exact Q1.
  - unfold finished. destruct use_cache; exact T1.
Qed.

Lemma calls_slept (attempt : Z) (s : State) : calls (slept attempt s) = calls s.
Proof. unfold slept. destruct (0 <? attempt)%Z; reflexivity. Qed.

Lemma cache_slept (attempt : Z) (s : State) :
  response_cache (slept attempt s) = response_cache s.
Proof. unfold slept. destruct (0 <? attempt)%Z; reflexivity. Qed.

Lemma db_slept (attempt : Z) (s : State) : db (slept attempt s) = db s.
Proof. unfold slept. destruct (0 <? attempt)%Z; reflexivity. Qed.

Lemma effects_slept (attempt : Z) (s : State) :
  effects (slept attempt s)
  = effects s ++ (if (0 <? attempt)%Z then [Sleep (2 ^ attempt)] else []).
Proof.
  unfold slept. destruct (0 <? attempt)%Z; simpl; [reflexivity|].
  symmetry. apply app_nil_r.
Qed.

(** What the loop leaves in place, and what it returns a result for. *)
Lemma attempts_extends (text : string) (extra_flags : option (list string))
    (use_cache : bool) (n : nat) :
  ∀ (attempt : Z) (last_error : Val) (s : State) (r : nat + Val) (s' : State),
    (use_cache = true → response_cache s !! Api.cache_key h text extra_flags = None) →
    Api.attempts h self text extra_flags use_cache n attempt last_error s = Some (r, s') →
    extends s s'
    ∧ match r with
      | inl result =>
          (length (heap s) ≤ result)%nat
          ∧ (use_cache = true →
             response_cache s' !! Api.cache_key h text extra_flags = Some result)
          ∧ (use_cache = false → response_cache s' = response_cache s)
          ∧ ∃ d, heap s' !! result = Some d
                 ∧ d !! "success" = Some (VBool true)
                 ∧ d !! "from_cache" = None
                 ∧ d !! "usage" = Some (VUsage (usage_now self s'))
                 ∧ (∃ k, d !! "attempt" = Some (VInt k))
      | inr _ => response_cache s' = response_cache s ∧ db s' = db s
      end.
Proof.
  induction n as [|n IH]; intros attempt last_error s r s' Hmiss Hrun.
  - simpl in Hrun. injection Hrun as <- <-. split; [apply extends_refl|done].
  - rewrite attempts_step in Hrun.
    set (cmd := Api.command self text extra_flags) in *.
    set (s0 := slept attempt s) in *.
    assert (extends s (executed h cmd s0)) as Hext.
    { eapply extends_trans; [apply extends_slept|apply extends_executed]. }
    assert (response_cache (executed h cmd s0) = response_cache s) as Hcache.
    { unfold s0. simpl. apply cache_slept. }
    destruct (succeeded (outcome h cmd s0)) eqn:Hok.
    + injection Hrun as <- <-. split.
      * apply extends_finished; [exact Hext|lia|]. rewrite Hcache. exact Hmiss.
      * split; [lia|]. split; [|split].
        -- intros ->. unfold finished. simpl. apply lookup_insert_eq.
        -- intros ->. unfold finished. simpl. apply cache_slept.
        -- assert (heap (executed h cmd s0) !! length (heap s)
                   = Some (Api.outcome_result cmd (outcome h cmd s0))) as Hl.
           { replace (length (heap s)) with (length (heap s0))
               by (unfold s0; rewrite heap_slept; done).
             apply lookup_executed. }
           eexists. split.
           { unfold finished. destruct use_cache; simpl;
               rewrite !list_lookup_alter_eq; simpl in Hl; rewrite Hl; reflexivity. }
           apply succeeded_exit_zero in Hok as (so & se & ->).
           split; [reflexivity|]. split; [reflexivity|].
           split; [destruct use_cache; reflexivity|]. eexists; reflexivity.
    + apply IH in Hrun; [|rewrite Hcache; exact Hmiss].
      destruct Hrun as [Hext' Hr]. split; [eapply extends_trans; eauto|].
      destruct r as [result|e].
      * destruct Hr as (Hlen & Hc & Hc' & Hd). split; [|split; [exact Hc|split]].
        -- rewrite heap_executed, length_app in Hlen. unfold s0 in Hlen.
           rewrite heap_slept in Hlen. lia.
        -- intros Hu. rewrite (Hc' Hu). exact Hcache.
        -- exact Hd.
      * destruct Hr as [Hc Hd]. split; [congruence|].
        rewrite Hd. unfold s0. simpl. apply db_slept.
Qed.

(** The loop raises nothing. *)
Lemma attempts_total (text : string) (extra_flags : option (list string))
    (use_cache : bool) (n : nat) :
  ∀ (attempt : Z) (last_error : Val) (s : State),
    ∃ r s', Api.attempts h self text extra_flags use_cache n attempt last_error s
            = Some (r, s').
Proof.
  induction n as [|n IH]; intros attempt last_error s.
  - simpl. unfold ret. eauto.
  - rewrite attempts_step. destruct (succeeded _); eauto.
Qed.

(** [prompt] raises nothing. *)
Lemma prompt_total (text : string) (extra_flags : option (list string))
    (use_cache : bool) (s : State) :
  ∃ r s', Api.prompt h self text extra_flags use_cache s = Some (r, s').
Proof.
  destruct (cached h text extra_flags use_cache s) as [l|] eqn:Hc.
  - rewrite (prompt_hit _ _ _ _ _ Hc). eauto.
  - destruct (admitted h self s) eqn:Hadm.
    + rewrite (prompt_admitted _ _ _ _ Hc Hadm).
      destruct (attempts_total text extra_flags use_cache
                  (Z.to_nat (Api.max_retries self)) 0 VNone (checked s))
        as ([result|e] & s' & ->); eauto.
    + rewrite (prompt_denied _ _ _ _ Hc Hadm). eauto.
Qed.

Lemma extends_mark (l : nat) (s : State) :
  extends s (set_heap (alter (<["from_cache" := VBool true]>) l) s).
Proof.
  split; try done. intros l' d Hl. simpl.
  destruct (decide (l = l')) as [->|Hne].
  - rewrite list_lookup_alter_eq, Hl. simpl. eexists. split; [reflexivity|].
    right. reflexivity.
  - rewrite list_lookup_alter_ne by done. eauto using marked_refl.
Qed.

(** What a call of [prompt] leaves in place. *)
Lemma prompt_extends (text : string) (extra_flags : option (list string))
    (use_cache : bool) (s : State) (r : nat) (s' : State) :
  Api.prompt h self text extra_flags use_cache s = Some (r, s') → extends s s'.
Proof.
  destruct (cached h text extra_flags use_cache s) as [l|] eqn:Hc.
  - rewrite (prompt_hit _ _ _ _ _ Hc). intros [= <- <-]. apply extends_mark.
  - destruct (admitted h self s) eqn:Hadm.
    + rewrite (prompt_admitted _ _ _ _ Hc Hadm).
      destruct (Api.attempts _ _ _ _ _ _ _ _ _) as [[[result|e] s1]|] eqn:Hrun;
        [| |discriminate].
      * intros [= <- <-]. apply attempts_extends in Hrun as [Hext _].
        -- eapply extends_trans; [|exact Hext]. split; eauto using marked_refl.
        -- intros ->. exact Hc.
      * intros [= <- <-]. apply attempts_extends in Hrun as [Hext _].
        -- eapply extends_trans; [|eapply extends_trans; [exact Hext|]].
           ++ split; eauto using marked_refl.
           ++ eapply extends_alloc; reflexivity.
        -- intros ->. exact Hc.
    + rewrite (prompt_denied _ _ _ _ Hc Hadm). intros [= <- <-].
      eapply extends_alloc; reflexivity.
Qed.

Lemma prompts_extends (requests : list (string * option (list string) * bool)) :
  ∀ (s : State) (rs : list nat) (s' : State),
    prompts h self requests s = Some (rs, s') → extends s s'.
Proof.
  induction requests as [|[[text extra_flags] use_cache] rest IH]; intros s rs s' Hrun.
  - injection Hrun as <- <-. apply extends_refl.
  - simpl in Hrun. unfold bind at 1 in Hrun.
    destruct (Api.prompt _ _ _ _ _ _) as [[r s1]|] eqn:Hp; [|discriminate].
    unfold bind at 1 in Hrun.
    destruct (prompts _ _ _ _) as [[rs1 s2]|] eqn:Hps; [|discriminate].
    injection Hrun as <- <-.
    eapply extends_trans; [eapply prompt_extends|eapply IH]; eauto.
Qed.

(** A successful result of a request with [use_cache] is the cache entry
    of the request. *)
Lemma prompt_success_cached (text : string) (extra_flags : option (list string))
    (s : State) (r : nat) (s' : State) (d : gmap string Val) :
  Api.prompt h self text extra_flags true s = Some (r, s') →
  heap s' !! r = Some d →
  d !! "success" = Some (VBool true) →
  response_cache s' !! Api.cache_key h text extra_flags = Some r.
Proof.
  destruct (cached h text extra_flags true s) as [l|] eqn:Hc.
  - rewrite (prompt_hit _ _ _ _ _ Hc). intros [= <- <-] _ _. exact Hc.
  - destruct (admitted h self s) eqn:Hadm.
    + rewrite (prompt_admitted _ _ _ _ Hc Hadm).
      destruct (Api.attempts _ _ _ _ _ _ _ _ _) as [[[result|e] s1]|] eqn:Hrun;
        [| |discriminate].
      * intros [= <- <-] _ _. apply attempts_extends in Hrun as [_ (_ & Hk & _)].
        -- apply Hk. reflexivity.
        -- intros _. exact Hc.
      * intros [= <- <-] Hd. simpl in Hd.
        rewrite list_lookup_middle in Hd by reflexivity.
        injection Hd as <-. discriminate.
    + rewrite (prompt_denied _ _ _ _ Hc Hadm). intros [= <- <-] Hd. simpl in Hd.
      rewrite list_lookup_middle in Hd by reflexivity.
      injection Hd as <-. discriminate.
Qed.

Lemma calls_after_failures (cmd : list string) (n : nat) :
  ∀ (attempt : Z) (s : State), calls (after_failures h cmd n attempt s) = (calls s + n)%nat.
Proof.
  induction n as [|n IH]; intros attempt s; simpl.
  - lia.
  - rewrite IH. simpl. rewrite calls_slept. lia.
Qed.

Lemma effects_after_failures (cmd : list string) (n : nat) :
  ∀ (attempt : Z) (s : State),
    effects (after_failures h cmd n attempt s) = effects s ++ failed_attempts cmd n attempt.
Proof.
  induction n as [|n IH]; intros attempt s; simpl.
  - symmetry. apply app_nil_r.
  - rewrite IH. simpl. rewrite effects_slept, <- !app_assoc. reflexivity.
Qed.

Lemma db_after_failures (cmd : list string) (n : nat) :
  ∀ (attempt : Z) (s : State), db (after_failures h cmd n attempt s) = db s.
Proof.
  induction n as [|n IH]; intros attempt s; simpl; [reflexivity|].
  rewrite IH. simpl. apply db_slept.
Qed.

Lemma cache_after_failures (cmd : list string) (n : nat) :
  ∀ (attempt : Z) (s : State),
    response_cache (after_failures h cmd n attempt s) = response_cache s.
Proof.
  induction n as [|n IH]; intros attempt s; simpl; [reflexivity|].
  rewrite IH. simpl. apply cache_slept.
Qed.

Lemma length_heap_after_failures (cmd : list string) (n : nat) :
  ∀ (attempt : Z) (s : State),
    length (heap (after_failures h cmd n attempt s)) = (length (heap s) + n)%nat.
Proof.
  induction n as [|n IH]; intros attempt s; simpl; [lia|].
  rewrite IH, heap_executed, length_app, heap_slept. simpl. lia.
Qed.

(** The loop after [k] attempts that failed. *)
Lemma attempts_after_failures (text : string) (extra_flags : option (list string))
    (use_cache : bool) (k : nat) :
  ∀ (n : nat) (attempt : Z) (last_error : Val) (s : State),
    let cmd := Api.command self text extra_flags in
    (∀ i, (i < k)%nat → succeeded (subprocess_run h (calls s + i) cmd).1 = false) →
    Api.attempts h self text extra_flags use_cache (k + n) attempt last_error s
    = Api.attempts h self text extra_flags use_cache n (attempt + Z.of_nat k)
        (last_error_after h cmd k last_error s) (after_failures h cmd k attempt s).
Proof.
  induction k as [|k IH]; intros n attempt last_error s cmd Hfail.
  - simpl. rewrite Z.add_0_r. reflexivity.
  - change (S k + n)%nat with (S (k + n)). rewrite attempts_step. fold cmd.
    assert (outcome h cmd (slept attempt s) = (subprocess_run h (calls s) cmd).1) as Hout.
    { unfold outcome. rewrite calls_slept. reflexivity. }
    rewrite Hout.
    assert (succeeded (subprocess_run h (calls s) cmd).1 = false) as H0.
    { specialize (Hfail 0%nat). rewrite Nat.add_0_r in Hfail. apply Hfail. lia. }
    rewrite H0. rewrite IH.
    + fold cmd. simpl after_failures.
      replace (attempt + 1 + Z.of_nat k)%Z with (attempt + Z.of_nat (S k))%Z by lia.
      f_equal. destruct k as [|k]; simpl.
      * rewrite Nat.add_0_r. reflexivity.
      * rewrite calls_slept. do 3 f_equal. lia.
    + fold cmd. intros i Hi. simpl calls. rewrite calls_slept.
      replace (S (calls s) + i)%nat with (calls s + S i)%nat by lia.
      apply Hfail. lia.
Qed.

Lemma lookup_finished (text : string) (extra_flags : option (list string))
    (use_cache : bool) (attempt : Z) (result : nat) (n : Z) (s : State)
    (d : gmap string Val) :
  heap s !! result = Some d →
  ∃ u, heap (finished h self text extra_flags use_cache attempt result n s) !! result
       = Some (<["attempt" := VInt (attempt + 1)]> (<["usage" := VUsage u]> d)).
Proof.
  intros Hd. unfold finished. eexists.
  destruct use_cache; simpl; rewrite !list_lookup_alter_eq, Hd; reflexivity.
Qed.

Lemma effects_finished (text : string) (extra_flags : option (list string))
    (use_cache : bool) (attempt : Z) (result : nat) (n : Z) (s : State) :
  effects (finished h self text extra_flags use_cache attempt result n s)
  = effects s ++ [RecordRequest text n; GetUsageStats].
Proof. unfold finished. destruct use_cache; simpl; rewrite <- app_assoc; reflexivity. Qed.

Lemma calls_finished (text : string) (extra_flags : option (list string))
    (use_cache : bool) (attempt : Z) (result : nat) (n : Z) (s : State) :
  calls (finished h self text extra_flags use_cache attempt result n s) = calls s.
Proof. unfold finished. destruct use_cache; reflexivity. Qed.

Lemma effects_executed (cmd : list string) (s : State) :
  effects (executed h cmd s) = effects s ++ [Execute cmd].
Proof. reflexivity. Qed.

Lemma calls_executed (cmd : list string) (s : State) :
  calls (executed h cmd s) = S (calls s).
Proof. reflexivity. Qed.

Lemma failed_error_is_text (out : Outcome) :
  succeeded out = false → ∃ msg, error_text out = VStr msg.
Proof.
  destruct out as [rc so se| |msg]; simpl; intros Hrc; eauto.
  rewrite Hrc. eauto.
Qed.

Lemma failed_attempts_record_nothing (cmd : list string) (n : nat) :
  ∀ (attempt : Z) (p : string) (k : Z), RecordRequest p k ∉ failed_attempts cmd n attempt.
Proof.
  induction n as [|n IH]; intros attempt p k; simpl.
  - apply not_elem_of_nil.
  - intros Hin. apply elem_of_app in Hin as [Hin|Hin].
    + destruct (0 <? attempt)%Z.
      * apply list_elem_of_singleton in Hin. discriminate.
      * inversion Hin.
    + apply elem_of_cons in Hin as [Hin|Hin]; [discriminate|]. eapply IH, Hin.
Qed.

Lemma denied_wait_positive (s : State) :
  admitted h self s = false → ∃ w, wait_time h self s = Some w ∧ (0 < w)%Z.
Proof.
  unfold admitted, wait_time. intros Hden.
  destruct (can_make_request _ _ _) as [[a w] d] eqn:Hcan. simpl in *. subst a.
  pose proof (LimiterFacts.can_make_request_denied
                (Api.max_requests self) (readings h s) (db s) w) as H.
  rewrite Hcan in H. destruct (H eq_refl) as [_ ->].
  destruct (sql_min_recent _ _); eexists; split; try reflexivity; lia.
Qed.

(** C4. With [max_retries = 3], a request that misses the cache and is
    admitted, and whose command fails on the first two attempts and
    succeeds on the third: [prompt] runs the command three times, sleeps
    2 seconds before the second attempt and 4 seconds before the third,
    records the request once after the success, and returns a successful
    result with attempt count 3. *)
Theorem retry_twice_then_success (text : string) (extra_flags : option (list string))
    (use_cache : bool) (s : State) (stdout stderr : string) :
  let cmd := Api.command self text extra_flags in
  Api.max_retries self = 3%Z →
  cached h text extra_flags use_cache s = None →
  admitted h self s = true →
  succeeded (subprocess_run h (calls s) cmd).1 = false →
  succeeded (subprocess_run h (calls s + 1) cmd).1 = false →
  (subprocess_run h (calls s + 2) cmd).1 = Exited 0 stdout stderr →
  ∃ r s' d,
    Api.prompt h self text extra_flags use_cache s = Some (r, s')
    ∧ effects s' = effects s ++
        [CanMakeRequest; Execute cmd; Sleep 2; Execute cmd; Sleep 4; Execute cmd;
         RecordRequest text (Z.of_nat (String.length stdout)); GetUsageStats]
    ∧ calls s' = (calls s + 3)%nat
    ∧ heap s' !! r = Some d
    ∧ d !! "success" = Some (VBool true)
    ∧ d !! "output" = Some (VStr stdout)
    ∧ d !! "attempt" = Some (VInt 3).
Proof.
  intros cmd Hretries Hc Hadm H1 H2 H3.
  rewrite (prompt_admitted _ _ _ _ Hc Hadm). rewrite Hretries.
  change (Z.to_nat 3) with (2 + 1)%nat.
  rewrite attempts_after_failures.
  2:{ fold cmd. intros i Hi. change (calls (checked s)) with (calls s).
      destruct i as [|[|i]]; [rewrite Nat.add_0_r; exact H1|exact H2|lia]. }
  fold cmd. rewrite attempts_step. fold cmd.
  set (s2 := after_failures h cmd 2 0 (checked s)).
  assert (outcome h cmd (slept (0 + Z.of_nat 2) s2) = Exited 0 stdout stderr) as Hout.
  { unfold outcome. rewrite calls_slept. unfold s2. rewrite calls_after_failures.
    exact H3. }
  rewrite Hout. simpl succeeded. cbv iota.
  destruct (lookup_finished text extra_flags use_cache (0 + Z.of_nat 2)
              (length (heap s2)) (output_length (Exited 0 stdout stderr))
              (executed h cmd (slept (0 + Z.of_nat 2) s2))
              (Api.outcome_result cmd (Exited 0 stdout stderr))) as [u Hd].
  { rewrite <- Hout. rewrite <- (heap_slept (0 + Z.of_nat 2) s2). apply lookup_executed. }
  eexists _, _, _. split; [reflexivity|]. split; [|split; [|split; [exact Hd|]]].
  - rewrite effects_finished, effects_executed, effects_slept.
    unfold s2. rewrite effects_after_failures. simpl. rewrite <- !app_assoc. reflexivity.
  - rewrite calls_finished, calls_executed, calls_slept. unfold s2.
    rewrite calls_after_failures. simpl. lia.
  - repeat split; reflexivity.
Qed.

(** C6. A request that misses the cache and that the limiter denies:
    [prompt] returns at once a failure dict that carries a wait time
    greater than 0 and the usage snapshot taken then; it calls the
    limiter's check and snapshot and nothing else: no child process, no
    sleep, no record. *)
Theorem denied_request_fails_at_once (text : string)
    (extra_flags : option (list string)) (use_cache : bool) (s : State) :
  cached h text extra_flags use_cache s = None →
  admitted h self s = false →
  ∃ r s' d w,
    Api.prompt h self text extra_flags use_cache s = Some (r, s')
    ∧ effects s' = effects s ++ [CanMakeRequest; GetUsageStats]
    ∧ calls s' = calls s
    ∧ now_us s' = now_us s
    ∧ db s' = db s
    ∧ response_cache s' = response_cache s
    ∧ heap s' !! r = Some d
    ∧ d !! "success" = Some (VBool false)
    ∧ d !! "wait_time" = Some (VInt w)
    ∧ (0 < w)%Z
    ∧ d !! "error"
      = Some (VStr ("Rate limit reached. Please wait " +:+ str_int w +:+ " seconds."))
    ∧ d !! "usage" = Some (VUsage (usage_now self s')).
Proof.
  intros Hc Hden. rewrite (prompt_denied _ _ _ _ Hc Hden).
  destruct (denied_wait_positive s Hden) as (w & Hw & Hpos). rewrite Hw.
  eexists _, _, _, w. split; [reflexivity|].
  split; [simpl; rewrite <- app_assoc; reflexivity|].
  do 4 (split; [reflexivity|]).
  split; [simpl; apply list_lookup_middle; reflexivity|].
  repeat split; try reflexivity. exact Hpos.
Qed.

(** C8. A request that misses the cache and is admitted, and whose
    attempts (at least one) all fail: [record_request] is not called and
    the database is as it was, and the dict returned is a failure whose
    error text ends with the error text of the last attempt and that
    carries the usage snapshot taken at the end. *)
Theorem failed_attempts_consume_no_quota (text : string)
    (extra_flags : option (list string)) (use_cache : bool) (s : State) :
  let cmd := Api.command self text extra_flags in
  let n := Z.to_nat (Api.max_retries self) in
  cached h text extra_flags use_cache s = None →
  admitted h self s = true →
  (0 < Api.max_retries self)%Z →
  (∀ i, (i < n)%nat → succeeded (subprocess_run h (calls s + i) cmd).1 = false) →
  ∃ r s' d msg,
    Api.prompt h self text extra_flags use_cache s = Some (r, s')
    ∧ db s' = db s
    ∧ effects s' = effects s ++ CanMakeRequest :: failed_attempts cmd n 0 ++ [GetUsageStats]
    ∧ (∀ p k, RecordRequest p k ∈ effects s' → RecordRequest p k ∈ effects s)
    ∧ response_cache s' = response_cache s
    ∧ heap s' !! r = Some d
    ∧ d !! "success" = Some (VBool false)
    ∧ error_text (subprocess_run h (calls s + (n - 1)) cmd).1 = VStr msg
    ∧ d !! "error"
      = Some (VStr ("Failed after " +:+ str_int (Api.max_retries self)
                    +:+ " attempts. Last error: " +:+ msg))
    ∧ d !! "usage" = Some (VUsage (usage_now self s')).
Proof.
  intros cmd n Hc Hadm Hpos Hfail.
  rewrite (prompt_admitted _ _ _ _ Hc Hadm). fold n.
  pose proof (attempts_after_failures text extra_flags use_cache n 0 0 VNone
                (checked s) Hfail) as Hrun.
  rewrite Nat.add_0_r in Hrun. rewrite Hrun. clear Hrun. fold cmd. simpl Api.attempts.
  unfold ret.
  assert (∃ n', n = S n') as [n' Hn] by (exists (n - 1)%nat; unfold n in *; lia).
  destruct (failed_error_is_text (subprocess_run h (calls s + (n - 1)) cmd).1) as [msg Hmsg].
  { apply Hfail. lia. }
  set (s1 := after_failures h cmd n 0 (checked s)).
  assert (effects s1 = effects s ++ CanMakeRequest :: failed_attempts cmd n 0) as Heff.
  { unfold s1. rewrite effects_after_failures. simpl. rewrite <- app_assoc. reflexivity. }
  eexists _, _, _, msg. split; [reflexivity|].
  split; [unfold s1; simpl; rewrite db_after_failures; reflexivity|].
  split; [simpl; rewrite Heff, <- app_assoc; reflexivity|].
  split.
  { intros p k. simpl. rewrite Heff. intros Hin.
    apply elem_of_app in Hin as [Hin|Hin].
    - apply elem_of_app in Hin as [Hin|Hin]; [exact Hin|].
      apply elem_of_cons in Hin as [Hin|Hin]; [discriminate|].
      exfalso. eapply failed_attempts_record_nothing, Hin.
    - apply list_elem_of_singleton in Hin. discriminate. }
  split; [unfold s1; simpl; rewrite cache_after_failures; reflexivity|].
  split; [simpl; apply list_lookup_middle; reflexivity|].
  split; [reflexivity|]. split; [exact Hmsg|]. split; [|reflexivity].
  unfold failed_result. rewrite lookup_insert_ne by done. rewrite lookup_insert_eq.
  do 5 f_equal. unfold last_error_after. rewrite Hn.
  change (calls (checked s)) with (calls s).
  replace (n - 1)%nat with n' in Hmsg by lia. rewrite Hmsg. reflexivity.
Qed.

Lemma marked_marked (d d' : gmap string Val) :
  marked (<["from_cache" := VBool true]> d) d' → d' = <["from_cache" := VBool true]> d.
Proof. intros [->| ->]; [reflexivity|]. apply insert_insert_eq. Qed.

(** A hit returns the cached object and marks it, and does nothing else. *)
Lemma hit_marks_entry (text : string) (extra_flags : option (list string))
    (s : State) (l : nat) (d : gmap string Val) :
  response_cache s !! Api.cache_key h text extra_flags = Some l →
  heap s !! l = Some d →
  Api.prompt h self text extra_flags true s
  = Some (l, set_heap (alter (<["from_cache" := VBool true]>) l) s)
  ∧ heap (set_heap (alter (<["from_cache" := VBool true]>) l) s) !! l
    = Some (<["from_cache" := VBool true]> d).
Proof.
  intros Hk Hd. split.
  - apply prompt_hit. exact Hk.
  - simpl. rewrite list_lookup_alter_eq, Hd. reflexivity.
Qed.

(** What a request that ran the command with success leaves in its result. *)
Lemma prompt_miss_success (text : string) (extra_flags : option (list string))
    (use_cache : bool) (s : State) (r : nat) (s' : State) (d : gmap string Val) :
  cached h text extra_flags use_cache s = None →
  Api.prompt h self text extra_flags use_cache s = Some (r, s') →
  heap s' !! r = Some d →
  d !! "success" = Some (VBool true) →
  d !! "from_cache" = None
  ∧ d !! "usage" = Some (VUsage (usage_now self s'))
  ∧ ∃ k, d !! "attempt" = Some (VInt k).
Proof.
  intros Hc. destruct (admitted h self s) eqn:Hadm.
  - rewrite (prompt_admitted _ _ _ _ Hc Hadm).
    destruct (Api.attempts _ _ _ _ _ _ _ _ _) as [[[result|e] s1]|] eqn:Hrun;
      [| |discriminate].
    + intros [= <- <-] Hd Hok. apply attempts_extends in Hrun as [_ (_ & _ & _ & Hres)].
      * destruct Hres as (d' & Hd' & _ & Hfc & Hu & Hk). rewrite Hd in Hd'.
        injection Hd' as <-. auto.
      * intros ->. exact Hc.
    + intros [= <- <-] Hd. simpl in Hd. rewrite list_lookup_middle in Hd by reflexivity.
      injection Hd as <-. discriminate.
  - rewrite (prompt_denied _ _ _ _ Hc Hadm). intros [= <- <-] Hd. simpl in Hd.
    rewrite list_lookup_middle in Hd by reflexivity. injection Hd as <-. discriminate.
Qed.

(** C5. Two requests with the same prompt and flags and with [use_cache],
    the first of which returned a successful result, with any calls of
    [prompt] between them: the second returns the same dict object, marked
    [from_cache], with the output (and the success flag) of the first; it
    has no effect on the collaborators (no limiter check, no child process,
    no sleep, no record), and the database, so the quota, is as before. *)
Theorem second_request_served_from_cache (text : string)
    (extra_flags : option (list string)) (s s1 s2 : State) (r1 : nat)
    (d1 : gmap string Val) (between : list (string * option (list string) * bool))
    (rs : list nat) :
  Api.prompt h self text extra_flags true s = Some (r1, s1) →
  heap s1 !! r1 = Some d1 →
  d1 !! "success" = Some (VBool true) →
  prompts h self between s1 = Some (rs, s2) →
  ∃ s3 d3,
    Api.prompt h self text extra_flags true s2 = Some (r1, s3)
    ∧ heap s3 !! r1 = Some d3
    ∧ d3 !! "from_cache" = Some (VBool true)
    ∧ d3 !! "output" = d1 !! "output"
    ∧ d3 !! "success" = Some (VBool true)
    ∧ effects s3 = effects s2
    ∧ calls s3 = calls s2
    ∧ now_us s3 = now_us s2
    ∧ db s3 = db s2.
Proof.
  intros Hfirst Hd1 Hok Hbetween.
  pose proof (prompt_success_cached _ _ _ _ _ _ Hfirst Hd1 Hok) as Hkey.
  destruct (prompts_extends _ _ _ _ Hbetween) as [Hheap Hcache _ _ _].
  apply Hcache in Hkey. destruct (Hheap _ _ Hd1) as (d2 & Hd2 & Hmark).
  destruct (hit_marks_entry text extra_flags s2 r1 d2 Hkey Hd2) as [Hhit Hd3].
  eexists _, _. split; [exact Hhit|]. split; [exact Hd3|].
  split; [apply lookup_insert_eq|].
  split; [rewrite lookup_insert_ne by done; apply marked_lookup; done|].
  split; [rewrite lookup_insert_ne by done; rewrite (marked_lookup _ _ _ Hmark) by done;
          exact Hok|].
  repeat split; reflexivity.
Qed.

(** C10. A request with [use_cache] that ran the command with success
    leaves its result dict as the cache entry, with the usage snapshot and
    the attempt count of that run in it. A later request for the same
    prompt and flags (after any calls of [prompt]) returns that object with
    [from_cache] set to true and every other field as the first run left it;
    it takes no new snapshot. The mark is in the cached object itself and
    stays there through all later calls. *)
Theorem cache_hit_returns_marked_entry (text : string)
    (extra_flags : option (list string)) (s0 s1 s2 : State) (l : nat)
    (d : gmap string Val) (between : list (string * option (list string) * bool))
    (rs : list nat) :
  cached h text extra_flags true s0 = None →
  Api.prompt h self text extra_flags true s0 = Some (l, s1) →
  heap s1 !! l = Some d →
  d !! "success" = Some (VBool true) →
  prompts h self between s1 = Some (rs, s2) →
  ∃ s3 k,
    response_cache s1 !! Api.cache_key h text extra_flags = Some l
    ∧ d !! "usage" = Some (VUsage (usage_now self s1))
    ∧ d !! "attempt" = Some (VInt k)
    ∧ d !! "from_cache" = None
    ∧ Api.prompt h self text extra_flags true s2 = Some (l, s3)
    ∧ heap s3 !! l = Some (<["from_cache" := VBool true]> d)
    ∧ response_cache s3 !! Api.cache_key h text extra_flags = Some l
    ∧ effects s3 = effects s2
    ∧ db s3 = db s2
    ∧ ∀ later rs' s4,
        prompts h self later s3 = Some (rs', s4) →
        response_cache s4 !! Api.cache_key h text extra_flags = Some l
        ∧ heap s4 !! l = Some (<["from_cache" := VBool true]> d)
        ∧ ∃ s5, Api.prompt h self text extra_flags true s4 = Some (l, s5)
                ∧ heap s5 !! l = Some (<["from_cache" := VBool true]> d).
Proof.
  intros Hmiss Hfirst Hd Hok Hbetween.
  pose proof (prompt_success_cached _ _ _ _ _ _ Hfirst Hd Hok) as Hkey.
  destruct (prompt_miss_success _ _ _ _ _ _ _ Hmiss Hfirst Hd Hok) as (Hfc & Hu & k & Hk).
  destruct (prompts_extends _ _ _ _ Hbetween) as [Hheap Hcache _ _ _].
  pose proof (Hcache _ _ Hkey) as Hkey2. destruct (Hheap _ _ Hd) as (d2 & Hd2 & Hmark).
  destruct (hit_marks_entry text extra_flags s2 l d2 Hkey2 Hd2) as [Hhit Hd3].
  rewrite (marked_again _ _ Hmark) in Hd3.
  eexists _, k. do 4 (split; [assumption|]). split; [exact Hhit|]. split; [exact Hd3|].
  split; [exact Hkey2|]. do 2 (split; [reflexivity|]).
  intros later rs' s4 Hlater.
  destruct (prompts_extends _ _ _ _ Hlater) as [Hheap' Hcache' _ _ _].
  pose proof (Hcache' _ _ Hkey2) as Hkey4.
  destruct (Hheap' _ _ Hd3) as (d4 & Hd4 & Hmark4). apply marked_marked in Hmark4. subst d4.
  split; [exact Hkey4|]. split; [exact Hd4|].
  destruct (hit_marks_entry text extra_flags s4 l _ Hkey4 Hd4) as [Hhit5 Hd5].
  rewrite insert_insert_eq in Hd5. eauto.
Qed.

Lemma attempt_state_swap (c : gmap string nat) (cmd : list string) (attempt : Z)
    (s : State) :
  executed h cmd (slept attempt (set_response_cache (λ _, c) s))
  = set_response_cache (λ _, c) (executed h cmd (slept attempt s)).
Proof. unfold slept. destruct (0 <? attempt)%Z; reflexivity. Qed.

Lemma outcome_swap (c : gmap string nat) (cmd : list string) (attempt : Z) (s : State) :
  outcome h cmd (slept attempt (set_response_cache (λ _, c) s))
  = outcome h cmd (slept attempt s).
Proof. unfold slept. destruct (0 <? attempt)%Z; reflexivity. Qed.

(** Without [use_cache] the loop runs the same whatever the cache holds,
    and leaves the cache as it is. *)
Lemma attempts_uncached_swap (text : string) (extra_flags : option (list string))
    (c : gmap string nat) (n : nat) :
  ∀ (attempt : Z) (last_error : Val) (s : State),
    Api.attempts h self text extra_flags false n attempt last_error
      (set_response_cache (λ _, c) s)
    = match Api.attempts h self text extra_flags false n attempt last_error s with
      | Some (r, s') => Some (r, set_response_cache (λ _, c) s')
      | None => None
      end.
Proof.
  induction n as [|n IH]; intros attempt last_error s.
  - reflexivity.
  - rewrite !attempts_step, outcome_swap, attempt_state_swap.
    destruct (succeeded _).
    + reflexivity.
    + apply IH.
Qed.

Lemma prompt_uncached_swap (text : string) (extra_flags : option (list string))
    (c : gmap string nat) (s : State) :
  Api.prompt h self text extra_flags false (set_response_cache (λ _, c) s)
  = match Api.prompt h self text extra_flags false s with
    | Some (r, s') => Some (r, set_response_cache (λ _, c) s')
    | None => None
    end.
Proof.
  destruct (admitted h self s) eqn:Hadm.
  - rewrite (prompt_admitted text extra_flags false s eq_refl Hadm).
    rewrite (prompt_admitted text extra_flags false (set_response_cache (λ _, c) s)
               eq_refl Hadm).
    change (checked (set_response_cache (λ _, c) s))
      with (set_response_cache (λ _, c) (checked s)).
    rewrite attempts_uncached_swap.
    destruct (Api.attempts _ _ _ _ _ _ _ _ _) as [[[result|e] s1]|]; reflexivity.
  - rewrite (prompt_denied text extra_flags false s eq_refl Hadm).
    rewrite (prompt_denied text extra_flags false (set_response_cache (λ _, c) s)
               eq_refl Hadm).
    reflexivity.
Qed.

Lemma attempts_effects (text : string) (extra_flags : option (list string))
    (use_cache : bool) (n : nat) :
  ∀ (attempt : Z) (last_error : Val) (s : State) (r : nat + Val) (s' : State),
    Api.attempts h self text extra_flags use_cache n attempt last_error s = Some (r, s') →
    ∃ tr, effects s' = effects s ++ tr.
Proof.
  induction n as [|n IH]; intros attempt last_error s r s' Hrun.
  - injection Hrun as <- <-. exists []. symmetry. apply app_nil_r.
  - rewrite attempts_step in Hrun. destruct (succeeded _).
    + injection Hrun as <- <-. eexists.
      rewrite effects_finished, effects_executed, effects_slept, <- !app_assoc. reflexivity.
    + apply IH in Hrun as [tr Htr]. eexists. rewrite Htr.
      rewrite effects_executed, effects_slept, <- !app_assoc. reflexivity.
Qed.

Lemma set_response_cache_same (s : State) :
  set_response_cache (λ _, response_cache s) s = s.
Proof. destruct s. reflexivity. Qed.

(** C9, as amended. A request without [use_cache], admitted or not:
    whatever the cache holds, [prompt] returns the same result and leaves
    the cache as it found it, so the cache is neither consulted nor
    updated. The request checks the limiter and then runs the command
    exactly when the limiter admits it and at least one attempt is allowed,
    and whether the limiter admits it does not depend on the cache. *)
Theorem uncached_request_ignores_cache (text : string)
    (extra_flags : option (list string)) (s : State) :
  ∃ r s',
    Api.prompt h self text extra_flags false s = Some (r, s')
    ∧ response_cache s' = response_cache s
    ∧ (∀ c, Api.prompt h self text extra_flags false (set_response_cache (λ _, c) s)
            = Some (r, set_response_cache (λ _, c) s'))
    ∧ (∀ c, admitted h self (set_response_cache (λ _, c) s) = admitted h self s)
    ∧ ((∃ tr, effects s' = effects s ++ CanMakeRequest
                 :: Execute (Api.command self text extra_flags) :: tr)
       ↔ admitted h self s = true ∧ (0 < Api.max_retries self)%Z).
Proof.
  destruct (prompt_total text extra_flags false s) as (r & s' & Hrun).
  exists r, s'. split; [exact Hrun|].
  assert (∀ c, Api.prompt h self text extra_flags false (set_response_cache (λ _, c) s)
               = Some (r, set_response_cache (λ _, c) s')) as Hswap.
  { intros c. rewrite prompt_uncached_swap, Hrun. reflexivity. }
  split.
  { pose proof (Hswap (response_cache s)) as Hsame.
    rewrite set_response_cache_same, Hrun in Hsame.
    injection Hsame as Hsame. rewrite Hsame. reflexivity. }
  split; [exact Hswap|]. split; [reflexivity|].
  destruct (admitted h self s) eqn:Hadm.
  - rewrite (prompt_admitted text extra_flags false s eq_refl Hadm) in Hrun.
    destruct (Z.to_nat (Api.max_retries self)) as [|n] eqn:Hn.
    + simpl in Hrun. injection Hrun as <- <-. split; [|lia].
      intros [tr Htr]. simpl in Htr. rewrite <- !app_assoc in Htr.
      apply app_inv_head in Htr. discriminate.
    + split; [|intros _]; [intros _; split; [reflexivity|lia]|].
      rewrite attempts_step in Hrun.
      change (slept 0 (checked s)) with (checked s) in Hrun.
      destruct (succeeded _).
      * injection Hrun as <- <-. eexists.
        rewrite effects_finished, effects_executed. simpl. rewrite <- !app_assoc. reflexivity.
      * destruct (Api.attempts _ _ _ _ _ _ _ _ _) as [[[result|e] s1]|] eqn:Hloop;
          [| |discriminate]; injection Hrun as <- <-;
          apply attempts_effects in Hloop as [tr Htr]; eexists; simpl; rewrite Htr;
          rewrite effects_executed; simpl; rewrite <- !app_assoc; reflexivity.
  - rewrite (prompt_denied text extra_flags false s eq_refl Hadm) in Hrun.
    injection Hrun as <- <-. split; [|intros [? _]; discriminate].
    intros [tr Htr]. simpl in Htr. rewrite <- !app_assoc in Htr.
    apply app_inv_head in Htr. discriminate.
Qed.

(** C3, as amended. [_execute_gemini_command] runs the command once and
    returns a dict whose [success] is false exactly when the child exits
    with a non-zero status, times out, or could not be run. Whenever the
    child exited, with status zero or not, [output] is the captured
    standard output; the captured standard error is in [error], and only
    after a non-zero exit. After a timeout or another exception [output] is
    [None] and [error] is the text of the condition. *)
Theorem executor_result_fields (text : string) (extra_flags : option (list string))
    (s : State) :
  ∃ r s' d,
    Api._execute_gemini_command h self text extra_flags s = Some (r, s')
    ∧ effects s' = effects s ++ [Execute (Api.command self text extra_flags)]
    ∧ heap s' !! r = Some d
    ∧ (d !! "success" = Some (VBool false)
       ↔ (∃ returncode stdout stderr,
            outcome h (Api.command self text extra_flags) s
            = Exited returncode stdout stderr ∧ returncode ≠ 0%Z)
         ∨ outcome h (Api.command self text extra_flags) s = TimeoutExpired
         ∨ ∃ msg, outcome h (Api.command self text extra_flags) s = Raised msg)
    ∧ match outcome h (Api.command self text extra_flags) s with
      | Exited returncode stdout stderr =>
          d !! "success" = Some (VBool (returncode =? 0)%Z)
          ∧ d !! "output" = Some (VStr stdout)
          ∧ d !! "error" = Some (if (returncode =? 0)%Z then VNone else VStr stderr)
      | TimeoutExpired =>
          d !! "output" = Some VNone
          ∧ d !! "error" = Some (VStr "Command timed out after 5 minutes")
      | Raised msg =>
          d !! "output" = Some VNone
          ∧ d !! "error" = Some (VStr msg)
      end.
Proof.
  rewrite execute_eq. eexists _, _, _. split; [reflexivity|]. split; [reflexivity|].
  split; [apply lookup_executed|]. split.
  - rewrite result_success. split.
    + intros [= Hfail].
      destruct (outcome h _ s) as [rc so se| |msg]; simpl in Hfail; eauto.
      left. exists rc, so, se. split; [reflexivity|]. intros ->. discriminate.
    + intros [(rc & so & se & -> & Hrc)|[->|[msg ->]]]; simpl; try reflexivity.
      do 2 f_equal. apply Z.eqb_neq. exact Hrc.
  - destruct (outcome h _ s) as [rc so se| |msg]; repeat split; reflexivity.
Qed.

End Loop.

End EngineFacts.

(** ** The job registry *)

Module ServerFacts.

Import Py RateLimiter Runtime Engine EngineFacts Server.

Lemma forward_trans (a b c : option Val) : forward a b → forward b c → forward a c.
Proof. intros Hab Hbc. destruct Hab; inversion Hbc; subst; constructor. Qed.

Lemma moved_refl (s : State) : moved s s.
Proof. intros j. split; [constructor|reflexivity]. Qed.

Lemma moved_trans (s1 s2 s3 : State) : moved s1 s2 → moved s2 s3 → moved s1 s3.
Proof.
  intros H12 H23 j. destruct (H12 j) as [F12 K12]. destruct (H23 j) as [F23 K23]. split.
  - eapply forward_trans; eauto.
  - intros Hc. specialize (K12 Hc). rewrite <- K12. apply K23.
    unfold status in *. rewrite K12. exact Hc.
Qed.

(** States with the same registry. *)
Lemma moved_same_jobs (s s' : State) : job_results s' = job_results s → moved s s'.
Proof.
  intros Hj j. unfold status. rewrite Hj. split; [constructor|reflexivity].
Qed.

Lemma status_registered (job_id j : string) (d : gmap string Val) (s s' : State) :
  job_results s' = <[job_id := d]> (job_results s) →
  status j s' = if decide (job_id = j) then d !! "status" else status j s.
Proof.
  intros Hj. unfold status. rewrite Hj. destruct (decide (job_id = j)) as [->|Hne].
  - rewrite lookup_insert_eq. reflexivity.
  - rewrite lookup_insert_ne by done. reflexivity.
Qed.

Lemma registry_ok_frame (s s' : State) :
  registry_ok s →
  job_results s' = job_results s → request_queue s' = request_queue s →
  batch_threads s' = batch_threads s →
  registry_ok s'.
Proof.
  intros [N Q T D S] Hj Hq Ht. split; unfold queued_jobs, status in *;
    rewrite ?Hj, ?Hq, ?Ht; assumption.
Qed.

(** A job gets its first record. *)
Lemma register_moved (job_id : string) (d : gmap string Val) (s s' : State) :
  job_results s !! job_id = None →
  d !! "status" = Some (VStr "processing") →
  job_results s' = <[job_id := d]> (job_results s) →
  moved s s'.
Proof.
  intros Hfresh Hd Hj j. rewrite (status_registered job_id j d s s' Hj).
  destruct (decide (job_id = j)) as [<-|Hne].
  - assert (status job_id s = None) as Hs by (unfold status; rewrite Hfresh; done).
    rewrite Hs, Hd. split; [constructor|discriminate].
  - split; [constructor|]. intros _. rewrite Hj. apply lookup_insert_ne. done.
Qed.

(** A job that is processing gets its final record. *)
Lemma complete_moved (job_id : string) (d : gmap string Val) (s s' : State) :
  status job_id s = Some (VStr "processing") →
  d !! "status" = Some (VStr "completed") →
  job_results s' = <[job_id := d]> (job_results s) →
  moved s s'.
Proof.
  intros Hproc Hd Hj j. rewrite (status_registered job_id j d s s' Hj).
  destruct (decide (job_id = j)) as [<-|Hne].
  - rewrite Hproc, Hd. split; [constructor|discriminate].
  - split; [constructor|]. intros _. rewrite Hj. apply lookup_insert_ne. done.
Qed.

Section Run.

Context (h : Host).

Lemma batch_prompts_extends (prompts : list string) :
  ∀ (s : State) (rs : list nat) (s' : State),
    Api.batch_prompts h gemini prompts s = Some (rs, s') → extends s s'.
Proof.
  induction prompts as [|p rest IH]; intros s rs s' Hrun.
  - injection Hrun as <- <-. apply extends_refl.
  - simpl in Hrun. rewrite (bind_eq _ _ _ _ _ (limiter_check_eq h gemini s)) in Hrun.
    assert (∃ s1, (if admitted h gemini s then ret tt
                   else match wait_time h gemini s with
                        | Some w => sleep w
                        | None => raise
                        end) (checked s) = Some (tt, s1) ∧ extends s s1) as (s1 & Hs1 & Hext1).
    { destruct (admitted h gemini s).
      - eexists. split; [reflexivity|]. split; eauto using marked_refl.
      - destruct (wait_time h gemini s) as [w|].
        + eexists. split; [reflexivity|]. split; eauto using marked_refl.
        + unfold bind at 1 in Hrun. simpl in Hrun. discriminate. }
    rewrite (bind_eq _ _ _ _ _ Hs1) in Hrun. unfold bind at 1 in Hrun.
    destruct (Api.prompt h gemini p None true s1) as [[r s2]|] eqn:Hp; [|discriminate].
    apply prompt_extends in Hp.
    assert (∃ s3, (match rest with [] => ret tt | _ :: _ => sleep 1 end) s2 = Some (tt, s3)
                  ∧ extends s2 s3) as (s3 & Hs3 & Hext3).
    { destruct rest; eexists; (split; [reflexivity|]); split; eauto using marked_refl. }
    rewrite (bind_eq _ _ _ _ _ Hs3) in Hrun. unfold bind at 1 in Hrun.
    destruct (Api.batch_prompts h gemini rest s3) as [[rs3 s4]|] eqn:Hrest; [|discriminate].
    injection Hrun as <- <-. apply IH in Hrest.
    eauto using extends_trans.
Qed.

Lemma queued_jobs_cons (request : Request) (rest : list Request) (s : State) :
  request_queue s = request :: rest →
  queued_jobs s = match rq_callback request with
                  | Some cb => cb :: omap rq_callback rest
                  | None => omap rq_callback rest
                  end.
Proof. unfold queued_jobs. intros ->. simpl. destruct (rq_callback request); reflexivity. Qed.

Lemma ok_register_queue (job_id : string) (d : gmap string Val) (request : Request)
    (s s' : State) :
  registry_ok s →
  job_results s !! job_id = None →
  d !! "status" = Some (VStr "processing") →
  rq_callback request = Some job_id →
  job_results s' = <[job_id := d]> (job_results s) →
  request_queue s' = request_queue s ++ [request] →
  batch_threads s' = batch_threads s →
  registry_ok s'.
Proof.
  intros [N Q T D S] Hfresh Hd Hcb Hj Hq Ht.
  assert (status job_id s = None) as Hnone by (unfold status; rewrite Hfresh; done).
  assert (queued_jobs s' = queued_jobs s ++ [job_id]) as Hqj.
  { unfold queued_jobs. rewrite Hq, omap_app. simpl. rewrite Hcb. reflexivity. }
  assert (job_id ∉ queued_jobs s) as Hnotin.
  { intros Hin. apply Q in Hin. congruence. }
  split.
  - rewrite Hqj. apply NoDup_app. split; [exact N|]. split.
    + intros x Hx ->%list_elem_of_singleton. contradiction.
    + apply NoDup_singleton.
  - intros j. rewrite Hqj, (status_registered job_id j d s s' Hj).
    destruct (decide (job_id = j)) as [<-|Hne]; [intros _; exact Hd|].
    intros [Hin|Hin%list_elem_of_singleton]%elem_of_app; [apply Q, Hin|congruence].
  - intros j ps. rewrite Ht, (status_registered job_id j d s s' Hj).
    destruct (decide (job_id = j)) as [<-|Hne]; [intros _; exact Hd|]. apply T.
  - intros j. rewrite Hqj, Ht.
    intros [Hin|Hin%list_elem_of_singleton]%elem_of_app; [apply D, Hin|].
    subst j. destruct (batch_threads s !! job_id) as [ps|] eqn:Hps; [|reflexivity].
    apply T in Hps. congruence.
  - intros j d'. rewrite Hj. destruct (decide (job_id = j)) as [<-|Hne].
    + rewrite lookup_insert_eq. intros [= <-]. left. exact Hd.
    + rewrite lookup_insert_ne by done. apply S.
Qed.

Lemma ok_register_thread (job_id : string) (d : gmap string Val) (prompts : list string)
    (s s' : State) :
  registry_ok s →
  job_results s !! job_id = None →
  d !! "status" = Some (VStr "processing") →
  job_results s' = <[job_id := d]> (job_results s) →
  request_queue s' = request_queue s →
  batch_threads s' = <[job_id := prompts]> (batch_threads s) →
  registry_ok s'.
Proof.
  intros [N Q T D S] Hfresh Hd Hj Hq Ht.
  assert (status job_id s = None) as Hnone by (unfold status; rewrite Hfresh; done).
  assert (queued_jobs s' = queued_jobs s) as Hqj by (unfold queued_jobs; rewrite Hq; done).
  split.
  - rewrite Hqj. exact N.
  - intros j. rewrite Hqj, (status_registered job_id j d s s' Hj).
    destruct (decide (job_id = j)) as [<-|Hne]; [intros _; exact Hd|]. apply Q.
  - intros j ps. rewrite Ht, (status_registered job_id j d s s' Hj).
    destruct (decide (job_id = j)) as [<-|Hne]; [intros _; exact Hd|].
    rewrite lookup_insert_ne by done. apply T.
  - intros j. rewrite Hqj, Ht. intros Hin.
    destruct (decide (job_id = j)) as [<-|Hne].
    + apply Q in Hin. congruence.
    + rewrite lookup_insert_ne by done. apply D, Hin.
  - intros j d'. rewrite Hj. destruct (decide (job_id = j)) as [<-|Hne].
    + rewrite lookup_insert_eq. intros [= <-]. left. exact Hd.
    + rewrite lookup_insert_ne by done. apply S.
Qed.

Lemma ok_dequeue (request : Request) (rest : list Request) (s s' : State) :
  registry_ok s →
  request_queue s = request :: rest →
  job_results s' = job_results s →
  request_queue s' = rest →
  batch_threads s' = batch_threads s →
  registry_ok s'.
Proof.
  intros [N Q T D S] Hqs Hj Hq Ht.
  assert (∀ j, j ∈ queued_jobs s' → j ∈ queued_jobs s) as Hsub.
  { intros j. rewrite (queued_jobs_cons request rest s Hqs). unfold queued_jobs. rewrite Hq.
    intros Hin. destruct (rq_callback request); [right|]; exact Hin. }
  split.
  - rewrite (queued_jobs_cons request rest s Hqs) in N. unfold queued_jobs. rewrite Hq.
    destruct (rq_callback request); [apply NoDup_cons in N as [_ N]|]; exact N.
  - intros j Hin. unfold status. rewrite Hj. apply Q, Hsub, Hin.
  - intros j ps. unfold status. rewrite Hj, Ht. apply T.
  - intros j Hin. rewrite Ht. apply D, Hsub, Hin.
  - intros j d. rewrite Hj. apply S.
Qed.

Lemma ok_complete_queue (cb : string) (d : gmap string Val) (request : Request)
    (rest : list Request) (s s' : State) :
  registry_ok s →
  request_queue s = request :: rest →
  rq_callback request = Some cb →
  d !! "status" = Some (VStr "completed") →
  job_results s' = <[cb := d]> (job_results s) →
  request_queue s' = rest →
  batch_threads s' = batch_threads s →
  registry_ok s'.
Proof.
  intros [N Q T D S] Hqs Hcb Hd Hj Hq Ht.
  pose proof (queued_jobs_cons request rest s Hqs) as Hqj. rewrite Hcb in Hqj.
  assert (queued_jobs s' = omap rq_callback rest) as Hqj'
    by (unfold queued_jobs; rewrite Hq; done).
  rewrite Hqj in N, Q, D. apply NoDup_cons in N as [Hnotin N].
  split.
  - rewrite Hqj'. exact N.
  - intros j. rewrite Hqj', (status_registered cb j d s s' Hj). intros Hin.
    destruct (decide (cb = j)) as [<-|Hne]; [contradiction|]. apply Q. right. exact Hin.
  - intros j ps. rewrite Ht, (status_registered cb j d s s' Hj). intros Hps.
    destruct (decide (cb = j)) as [<-|Hne]; [|eapply T, Hps].
    rewrite D in Hps by left. discriminate.
  - intros j. rewrite Hqj', Ht. intros Hin. apply D. right. exact Hin.
  - intros j d'. rewrite Hj. destruct (decide (cb = j)) as [<-|Hne].
    + rewrite lookup_insert_eq. intros [= <-]. right. exact Hd.
    + rewrite lookup_insert_ne by done. apply S.
Qed.

Lemma ok_complete_thread (job_id : string) (d : gmap string Val) (prompts : list string)
    (s s' : State) :
  registry_ok s →
  batch_threads s !! job_id = Some prompts →
  d !! "status" = Some (VStr "completed") →
  job_results s' = <[job_id := d]> (job_results s) →
  request_queue s' = request_queue s →
  batch_threads s' = delete job_id (batch_threads s) →
  registry_ok s'.
Proof.
  intros [N Q T D S] Hth Hd Hj Hq Ht.
  assert (queued_jobs s' = queued_jobs s) as Hqj by (unfold queued_jobs; rewrite Hq; done).
  assert (job_id ∉ queued_jobs s) as Hnotin.
  { intros Hin. apply D in Hin. congruence. }
  split.
  - rewrite Hqj. exact N.
  - intros j. rewrite Hqj, (status_registered job_id j d s s' Hj). intros Hin.
    destruct (decide (job_id = j)) as [<-|Hne]; [contradiction|]. apply Q, Hin.
  - intros j ps. rewrite Ht, (status_registered job_id j d s s' Hj).
    destruct (decide (job_id = j)) as [<-|Hne].
    + rewrite lookup_delete_eq. discriminate.
    + rewrite lookup_delete_ne by done. apply T.
  - intros j. rewrite Hqj, Ht. intros Hin.
    destruct (decide (job_id = j)) as [<-|Hne]; [apply lookup_delete_eq|].
    rewrite lookup_delete_ne by done. apply D, Hin.
  - intros j d'. rewrite Hj. destruct (decide (job_id = j)) as [<-|Hne].
    + rewrite lookup_insert_eq. intros [= <-]. right. exact Hd.
    + rewrite lookup_insert_ne by done. apply S.
Qed.

Lemma worker_step (s : State) (r : Reply) (s' : State) :
  registry_ok s → worker h s = Some (r, s') → registry_ok s' ∧ moved s s'.
Proof.
  intros Hok. unfold worker, bind, Api._process_queue.
  destruct (request_queue s) as [|request rest] eqn:Hq.
  - intros [= <- <-]. split; [exact Hok|apply moved_refl].
  - set (s1 := set_request_queue (λ _, rest) s).
    destruct (prompt_total h gemini (rq_prompt request) (rq_extra_flags request) true s1)
      as (result & s2 & Hp).
    rewrite (bind_eq _ _ _ _ _ Hp). destruct (prompt_extends _ _ _ _ _ _ _ _ Hp) as [_ _ Hj2 Hq2 Ht2].
    destruct (rq_callback request) as [cb|] eqn:Hcb.
    + unfold ret. intros [= <- <-]. split.
      * apply (ok_complete_queue cb
                 (<["status" := VStr "completed"]>
                  (<["result" := VRef result]>
                  (<["completed_at" := VStr (isoformat h (py_now h s2))]> ∅)))
                 request rest s _ Hok Hq Hcb).
        -- reflexivity.
        -- change (job_results s) with (job_results s1). rewrite <- Hj2. reflexivity.
        -- exact Hq2.
        -- exact Ht2.
      * apply (complete_moved cb
                 (<["status" := VStr "completed"]>
                  (<["result" := VRef result]>
                  (<["completed_at" := VStr (isoformat h (py_now h s2))]> ∅)))).
        -- apply (ok_queued s Hok). rewrite (queued_jobs_cons request rest s Hq), Hcb. left.
        -- reflexivity.
        -- change (job_results s) with (job_results s1). rewrite <- Hj2. reflexivity.
    + unfold ret. intros [= <- <-]. split.
      * apply (ok_dequeue request rest s _ Hok Hq Hj2 Hq2 Ht2).
      * apply moved_same_jobs. exact Hj2.
Qed.

Lemma process_batch_step (job_id : string) (s : State) (r : Reply) (s' : State) :
  registry_ok s → process_batch h job_id s = Some (r, s') → registry_ok s' ∧ moved s s'.
Proof.
  intros Hok. unfold process_batch. unfold bind at 1, gets.
  destruct (batch_threads s !! job_id) as [prompts|] eqn:Hth.
  - unfold bind at 1, modify. unfold bind at 1.
    destruct (Api.batch_prompts h gemini prompts _) as [[results s2]|] eqn:Hb; [|discriminate].
    destruct (batch_prompts_extends _ _ _ _ Hb) as [_ _ Hj2 Hq2 Ht2].
    intros [= <- <-]. split.
    + apply (ok_complete_thread job_id
               (<["status" := VStr "completed"]>
                (<["results" := VRefs results]>
                (<["completed_at" := VStr (isoformat h (py_now h s2))]> ∅)))
               prompts s _ Hok Hth).
      * reflexivity.
      * simpl. rewrite Hj2. reflexivity.
      * simpl. rewrite Hq2. reflexivity.
      * simpl. rewrite Ht2. reflexivity.
    + apply (complete_moved job_id
               (<["status" := VStr "completed"]>
                (<["results" := VRefs results]>
                (<["completed_at" := VStr (isoformat h (py_now h s2))]> ∅)))).
      * eapply (ok_threads s Hok), Hth.
      * reflexivity.
      * simpl. rewrite Hj2. reflexivity.
  - intros [= <- <-]. split; [exact Hok|apply moved_refl].
Qed.

Lemma prompt_step (text : string) (extra_flags : option (list string))
    (use_cache : option bool) (s : State) (r : Reply) (s' : State) :
  registry_ok s → Server.prompt h text extra_flags use_cache s = Some (r, s') →
  registry_ok s' ∧ moved s s'.
Proof.
  intros Hok. unfold Server.prompt. unfold bind at 1.
  destruct (Api.prompt h gemini text _ _ s) as [[result s2]|] eqn:Hp; [|discriminate].
  destruct (prompt_extends _ _ _ _ _ _ _ _ Hp) as [_ _ Hj2 Hq2 Ht2].
  unfold bind, gets. destruct (heap s2 !! result); [|discriminate].
  intros [= <- <-]. split.
  - eapply registry_ok_frame; eauto.
  - apply moved_same_jobs. exact Hj2.
Qed.

(** A turn of the worker on a queue whose first request carries the
    callback of [job_id] leaves the job completed, with the result of the
    request, whatever that result is. *)
Lemma worker_completes_job (request : Request) (rest : list Request) (job_id : string)
    (s : State) (r : Reply) (s' : State) :
  request_queue s = request :: rest →
  rq_callback request = Some job_id →
  worker h s = Some (r, s') →
  status job_id s' = Some (VStr "completed")
  ∧ ∃ result s2,
      Api.prompt h gemini (rq_prompt request) (rq_extra_flags request) true
        (set_request_queue (λ _, rest) s) = Some (result, s2)
      ∧ job_results s' !! job_id ≫= (.!! "result") = Some (VRef result).
Proof.
  intros Hq Hcb. unfold worker, bind, Api._process_queue. rewrite Hq.
  set (s1 := set_request_queue (λ _, rest) s).
  destruct (prompt_total h gemini (rq_prompt request) (rq_extra_flags request) true s1)
    as (result & s2 & Hp).
  rewrite (bind_eq _ _ _ _ _ Hp), Hcb. unfold ret. intros [= <- <-].
  split.
  - unfold status. simpl. rewrite lookup_insert_eq. reflexivity.
  - exists result, s2. split; [exact Hp|].
    simpl. rewrite lookup_insert_eq. reflexivity.
Qed.

(** Every step of the server keeps the registry in order and moves every
    status forward. *)
Lemma step_ok (a : Action) (s : State) (r : Reply) (s' : State) :
  registry_ok s → step h a s = Some (r, s') → registry_ok s' ∧ moved s s'.
Proof.
  intros Hok. unfold step. destruct (enabled a s) eqn:Hen; [|discriminate].
  destruct a as [job_id text extra_flags| |job_id|text extra_flags use_cache|
                 |job_id prompts|job_id]; simpl in *.
  - apply bool_decide_eq_true in Hen. intros [= <- <-]. split.
    + eapply (ok_register_queue job_id _ _ s); eauto; reflexivity.
    + eapply (register_moved job_id); eauto; reflexivity.
  - apply worker_step. exact Hok.
  - unfold get_job, bind, gets. destruct (job_results s !! job_id);
      intros [= <- <-]; (split; [exact Hok|apply moved_refl]).
  - apply prompt_step. exact Hok.
  - intros [= <- <-]. split.
    + eapply registry_ok_frame; eauto.
    + apply moved_same_jobs. reflexivity.
  - apply bool_decide_eq_true in Hen. intros [= <- <-]. split.
    + eapply (ok_register_thread job_id _ prompts s); eauto; reflexivity.
    + eapply (register_moved job_id); eauto; reflexivity.
  - apply process_batch_step. exact Hok.
Qed.

Lemma started_ok (now : Z) (d : Database) : registry_ok (started now d).
Proof.
  split; simpl.
  - apply NoDup_nil_2.
  - intros j Hin. inversion Hin.
  - intros j ps. rewrite lookup_empty. discriminate.
  - reflexivity.
  - intros j d'. rewrite lookup_empty. discriminate.
Qed.

(** The states of a run, seen from the state it starts in. *)
Lemma run_actions_ok (acts : list Action) :
  ∀ (s : State) (trace : list (Reply * State)),
    registry_ok s →
    run_actions h acts s = Some trace →
    ∀ j rj sj, trace !! j = Some (rj, sj) → registry_ok sj ∧ moved s sj.
Proof.
  induction acts as [|a acts IH]; intros s trace Hok Hrun; simpl in Hrun.
  - injection Hrun as <-. intros j rj sj Hj. rewrite lookup_nil in Hj. discriminate.
  - destruct (step h a s) as [[r s1]|] eqn:Hstep; [|discriminate].
    destruct (run_actions h acts s1) as [rest|] eqn:Hrest; [|discriminate].
    injection Hrun as <-. destruct (step_ok a s r s1 Hok Hstep) as [Hok1 Hm1].
    intros [|j] rj sj Hj; simpl in Hj.
    + injection Hj as <- <-. split; assumption.
    + destruct (IH s1 rest Hok1 Hrest j rj sj Hj) as [Hokj Hmj].
      split; [exact Hokj|]. eapply moved_trans; eauto.
Qed.

Lemma run_actions_from (acts : list Action) :
  ∀ (s : State) (trace : list (Reply * State)) (i : nat) (ri : Reply) (si : State),
    run_actions h acts s = Some trace →
    trace !! i = Some (ri, si) →
    run_actions h (drop (S i) acts) si = Some (drop (S i) trace).
Proof.
  induction acts as [|a acts IH]; intros s trace i ri si Hrun Hi; simpl in Hrun.
  - injection Hrun as <-. rewrite lookup_nil in Hi. discriminate.
  - destruct (step h a s) as [[r s1]|] eqn:Hstep; [|discriminate].
    destruct (run_actions h acts s1) as [rest|] eqn:Hrest; [|discriminate].
    injection Hrun as <-. destruct i as [|i]; simpl in Hi.
    + injection Hi as <- <-. simpl. rewrite !drop_0. exact Hrest.
    + simpl. eapply IH; eauto.
Qed.

Lemma run_actions_reply (acts : list Action) :
  ∀ (s : State) (trace : list (Reply * State)) (i : nat) (ri : Reply) (si : State)
    (job_id : string),
    run_actions h acts s = Some trace →
    trace !! i = Some (ri, si) →
    acts !! i = Some (GetJob job_id) →
    ri = match job_results si !! job_id with
         | Some job => Json job
         | None => NotFound
         end.
Proof.
  induction acts as [|a acts IH]; intros s trace i ri si job_id Hrun Hi Ha; simpl in Hrun.
  - rewrite lookup_nil in Ha. discriminate.
  - destruct (step h a s) as [[r s1]|] eqn:Hstep; [|discriminate].
    destruct (run_actions h acts s1) as [rest|] eqn:Hrest; [|discriminate].
    injection Hrun as <-. destruct i as [|i]; simpl in Hi, Ha.
    + injection Hi as <- <-. injection Ha as ->. unfold step in Hstep. simpl in Hstep.
      unfold get_job, bind, gets in Hstep.
      destruct (job_results s !! job_id) eqn:Hj; injection Hstep as <- <-;
        rewrite Hj; reflexivity.
    + eapply IH; eauto.
Qed.

(** C2, as amended. In every run of the server from its start, the status
    that pollers read for a job only moves forward: not registered, then
    "processing" from the moment the job is enqueued, then "completed" once
    the worker has run the request and called the callback, whether the
    result is a success or a failure. These are the only two values. A
    status does not go back, and the record of a completed job is not
    written again. A poll returns the record of the registry as it is, and
    a turn of the worker on the request of a job leaves that job
    completed. *)
Theorem job_status_moves_forward (now : Z) (d : Database) (acts : list Action)
    (trace : list (Reply * State)) (job_id : string)
    (i j : nat) (ri rj : Reply) (si sj : State) :
  run_actions h acts (started now d) = Some trace →
  (i ≤ j)%nat →
  trace !! i = Some (ri, si) →
  trace !! j = Some (rj, sj) →
  forward (status job_id si) (status job_id sj)
  ∧ (status job_id si = Some (VStr "completed") →
     job_results sj !! job_id = job_results si !! job_id)
  ∧ (status job_id si = None
     ∨ status job_id si = Some (VStr "processing")
     ∨ status job_id si = Some (VStr "completed"))
  ∧ (acts !! i = Some (GetJob job_id) →
     ri = match job_results si !! job_id with
          | Some job => Json job
          | None => NotFound
          end)
  ∧ (∀ request rest,
       j = S i → acts !! j = Some Worker →
       request_queue si = request :: rest → rq_callback request = Some job_id →
       status job_id sj = Some (VStr "completed")).
Proof.
  intros Hrun Hij Hi Hj.
  destruct (run_actions_ok acts _ _ (started_ok now d) Hrun i ri si Hi) as [Hoki _].
  assert (moved si sj) as Hm.
  { destruct (decide (i = j)) as [->|Hne].
    - rewrite Hi in Hj. injection Hj as <- <-. apply moved_refl.
    - pose proof (run_actions_from acts _ _ i ri si Hrun Hi) as Hfrom.
      assert (drop (S i) trace !! (j - S i)%nat = Some (rj, sj)) as Hj'.
      { rewrite lookup_drop. replace (S i + (j - S i))%nat with j by lia. exact Hj. }
      apply (run_actions_ok _ _ _ Hoki Hfrom _ _ _ Hj'). }
  destruct (Hm job_id) as [Hf Hk]. split; [exact Hf|]. split; [exact Hk|]. split.
  - unfold status. destruct (job_results si !! job_id) as [job|] eqn:Hjob; simpl.
    + right. apply (ok_status si Hoki job_id job Hjob).
    + left. reflexivity.
  - split; [intros Ha; eapply run_actions_reply; eauto|].
    intros request rest -> Ha Hq Hcb.
    pose proof (run_actions_from acts _ _ i ri si Hrun Hi) as Hfrom.
    assert (drop (S i) acts !! 0%nat = Some Worker) as Ha0.
    { rewrite lookup_drop, Nat.add_0_r. exact Ha. }
    assert (drop (S i) trace !! 0%nat = Some (rj, sj)) as Hj0.
    { rewrite lookup_drop, Nat.add_0_r. exact Hj. }
    destruct (drop (S i) acts) as [|a acts']; [discriminate|].
    injection Ha0 as ->. simpl in Hfrom.
    destruct (step h Worker si) as [[r1 s1]|] eqn:Hstep; [|discriminate].
    destruct (run_actions h acts' s1) as [rest'|]; [|discriminate].
    injection Hfrom as Hfrom. rewrite <- Hfrom in Hj0. injection Hj0 as -> ->.
    unfold step in Hstep. simpl in Hstep.
    apply (worker_completes_job request rest job_id si rj sj Hq Hcb Hstep).
Qed.

End Run.

End ServerFacts.

(** ** The properties at concrete inputs *)

Module Checks.

Import Py RateLimiter Runtime Engine Server Scenario.

Lemma quota_exceeded_by_overlap_only_witness :
  ∃ ss,
    trajectory (λ x, x) 1 serial_with_failure start = Some ss
    ∧ Forall one_at_a_time ss
    ∧ Forall (within_quota 1) ss.
Proof.
  eexists. split; [vm_compute; reflexivity|].
  split; [repeat constructor|].
  apply (LimiterFacts.quota_exceeded_by_overlap_only (λ x, x) 1 0 serial_with_failure start).
  - intros now _. vm_compute. discriminate.
  - reflexivity.
  - vm_compute. reflexivity.
  - repeat constructor.
Defined.

(** C1 as stated fails: with [max_requests = 1], two requests that are both
    checked at time 0, before either records, are both allowed, and after
    both have recorded the table holds two rows of the last hour. *)
Lemma interleaved_requests_exceed_quota :
  within_quota 1 start
  ∧ sys_pending start = []
  ∧ ∃ ss s,
      trajectory (λ x, x) 1 interleaved start = Some ss
      ∧ last ss = Some s
      ∧ sql_count_recent (sys_time s) (sys_db s) = 2%Z
      ∧ ¬ within_quota 1 s.
Proof.
  split; [intros now _; vm_compute; discriminate|]. split; [reflexivity|].
  eexists _, _. split; [vm_compute; reflexivity|]. split; [reflexivity|].
  split; [vm_compute; reflexivity|].
  intros Hq. specialize (Hq 1%Z). vm_compute in Hq. apply Hq; [discriminate|reflexivity].
Qed.

(** C7 fails on a host whose local clock is not UTC. SQLite stamps and
    selects the rows in UTC and [can_make_request] subtracts the reading of
    [datetime.now()], the local clock, from the oldest stamp. With
    [max_requests = 1], a row stamped at second 4000 and a call at second
    4200 on a host two hours ahead of UTC, the wait returned is 1 second.
    The row is the oldest of the window and leaves it at second 7600, 3400
    seconds after the call: a call at any second [t] before 7600 is still
    denied (on a host on UTC, on the second, with the wait [7600 - t]), and
    the call at second 7600 is the first that is allowed. *)
Theorem wait_off_utc_misses_expiry :
  can_make_request 1 (two_hours_ahead 4200) crowded = ((false, Some 1%Z), crowded)
  ∧ (∀ t, (4200 ≤ t < 7600)%Z →
       can_make_request 1 (at_time t) crowded = ((false, Some (7600 - t)%Z), crowded))
  ∧ can_make_request 1 (at_time 7600) crowded = ((true, None), crowded).
Proof.
  split; [vm_compute; reflexivity|]. split; [|vm_compute; reflexivity].
  intros t Ht.
  unfold can_make_request, sql_count_recent, sql_min_recent, recent, sql_delete_old,
    seconds_until_expiry, crowded, at_time, hour, million. simpl.
  rewrite !filter_cons, !filter_nil. simpl.
  repeat (destruct (decide _) as [?|?]; simpl in *; try lia).
  rewrite !filter_cons, !filter_nil. simpl.
  repeat (destruct (decide _) as [?|?]; simpl in *; try lia).
  do 3 f_equal.
  replace ((4000 + 3600) * 1000000 - t * 1000000)%Z with ((7600 - t) * 1000000)%Z by lia.
  rewrite Z.quot_mul by lia. lia.
Qed.

Lemma retry_twice_then_success_witness :
  ∃ r s' d,
    Api.prompt (flaky 2) (api 3 10) "hi" None true (initial 0 init_db) = Some (r, s')
    ∧ effects s' =
        [CanMakeRequest; Execute ["gemini"; "--yolo"; "--checkpointing"; "-p"; "hi"];
         Sleep 2; Execute ["gemini"; "--yolo"; "--checkpointing"; "-p"; "hi"];
         Sleep 4; Execute ["gemini"; "--yolo"; "--checkpointing"; "-p"; "hi"];
         RecordRequest "hi" 5; GetUsageStats]
    ∧ heap s' !! r = Some d
    ∧ d !! "attempt" = Some (VInt 3).
Proof.
  destruct (EngineFacts.retry_twice_then_success (flaky 2) (api 3 10) "hi" None true
              (initial 0 init_db) "hello" "")
    as (r & s' & d & Hrun & Heff & _ & Hd & _ & _ & Hattempt); try reflexivity.
  exists r, s', d. auto.
Defined.

Lemma denied_request_fails_at_once_witness :
  ∃ r s' d w,
    Api.prompt (flaky 0) (api 3 1) "hi" None true busy = Some (r, s')
    ∧ effects s' = [CanMakeRequest; GetUsageStats]
    ∧ heap s' !! r = Some d
    ∧ d !! "wait_time" = Some (VInt w)
    ∧ (0 < w)%Z.
Proof.
  destruct (EngineFacts.denied_request_fails_at_once (flaky 0) (api 3 1) "hi" None true busy)
    as (r & s' & d & w & Hrun & Heff & _ & _ & _ & _ & Hd & _ & Hw & Hpos & _);
    try reflexivity.
  exists r, s', d, w. auto.
Defined.

Lemma failed_attempts_consume_no_quota_witness :
  ∃ r s' d,
    Api.prompt (flaky 9) (api 3 10) "hi" None true (initial 0 init_db) = Some (r, s')
    ∧ db s' = init_db
    ∧ heap s' !! r = Some d
    ∧ d !! "error" = Some (VStr "Failed after 3 attempts. Last error: boom").
Proof.
  destruct (EngineFacts.failed_attempts_consume_no_quota (flaky 9) (api 3 10) "hi" None true
              (initial 0 init_db))
    as (r & s' & d & msg & Hrun & Hdb & _ & _ & _ & Hd & _ & Hmsg & Herr & _);
    try reflexivity.
  - intros i Hi. destruct i as [|[|[|i]]]; try reflexivity.
    exfalso. vm_compute in Hi. lia.
  - exists r, s', d. split; [exact Hrun|]. split; [exact Hdb|]. split; [exact Hd|].
    rewrite Herr. injection Hmsg as <-. reflexivity.
Defined.

Lemma uncached_request_ignores_cache_witness :
  ∃ r s' tr,
    effects s' = CanMakeRequest
                   :: Execute ["gemini"; "--yolo"; "--checkpointing"; "-p"; "hi"] :: tr
    ∧ Api.prompt (flaky 0) (api 3 10) "hi" None false
        (set_response_cache (λ _, {["hiNone" := 7]}) (initial 0 init_db))
      = Some (r, set_response_cache (λ _, {["hiNone" := 7]}) s').
Proof.
  destruct (EngineFacts.uncached_request_ignores_cache (flaky 0) (api 3 10) "hi" None
              (initial 0 init_db))
    as (r & s' & _ & _ & Hrun & _ & Heff).
  destruct (proj2 Heff) as [tr Htr]; [split; reflexivity|].
  exists r, s', tr. split; [exact Htr|]. apply Hrun.
Defined.

(** C9 as stated fails: a request without [use_cache] that the limiter
    denies does not run the command. *)
Lemma uncached_request_denied_runs_nothing :
  ∃ r s',
    Api.prompt (flaky 0) (api 3 1) "hi" None false busy = Some (r, s')
    ∧ effects s' = [CanMakeRequest; GetUsageStats]
    ∧ calls s' = 0%nat.
Proof. eexists _, _. split; [vm_compute; reflexivity|]. split; reflexivity. Qed.

(** C3 as stated fails: after a non-zero exit the result is a failure, and
    its [output] is the captured standard output, not the captured standard
    error. *)
Lemma failed_command_returns_stdout :
  ∃ r s' d,
    Api._execute_gemini_command (flaky 1) (api 3 10) "hi" None (initial 0 init_db)
    = Some (r, s')
    ∧ subprocess_run (flaky 1) 0 (Api.command (api 3 10) "hi" None)
      = (Exited 1 "partial" "boom", 1000000%Z)
    ∧ heap s' !! r = Some d
    ∧ d !! "success" = Some (VBool false)
    ∧ d !! "output" = Some (VStr "partial")
    ∧ d !! "output" ≠ Some (VStr "boom").
Proof.
  eexists _, _, _. split; [vm_compute; reflexivity|]. split; [reflexivity|].
  split; [reflexivity|]. split; [reflexivity|]. split; [reflexivity|]. discriminate.
Qed.

Lemma second_request_served_from_cache_witness :
  ∃ r1 s1 rs s2 s3 d3,
    Api.prompt (flaky 0) (api 3 10) "hi" None true (initial 0 init_db) = Some (r1, s1)
    ∧ prompts (flaky 0) (api 3 10) [("other", None, true)] s1 = Some (rs, s2)
    ∧ Api.prompt (flaky 0) (api 3 10) "hi" None true s2 = Some (r1, s3)
    ∧ heap s3 !! r1 = Some d3
    ∧ d3 !! "from_cache" = Some (VBool true)
    ∧ d3 !! "output" = Some (VStr "hello")
    ∧ effects s3 = effects s2.
Proof.
  destruct (EngineFacts.prompt_total (flaky 0) (api 3 10) "hi" None true (initial 0 init_db))
    as (r1 & s1 & Hfirst).
  assert (∃ d1, heap s1 !! r1 = Some d1 ∧ d1 !! "success" = Some (VBool true)
                ∧ d1 !! "output" = Some (VStr "hello")) as (d1 & Hd1 & Hok & Hout).
  { vm_compute in Hfirst. injection Hfirst as <- <-. eexists. repeat split; reflexivity. }
  destruct (EngineFacts.prompt_total (flaky 0) (api 3 10) "other" None true s1)
    as (r2 & s2 & Hother).
  assert (prompts (flaky 0) (api 3 10) [("other", None, true)] s1 = Some ([r2], s2))
    as Hbetween.
  { simpl. unfold bind at 1. rewrite Hother. reflexivity. }
  destruct (EngineFacts.second_request_served_from_cache (flaky 0) (api 3 10) "hi" None
              (initial 0 init_db) s1 s2 r1 d1 [("other", None, true)] [r2]
              Hfirst Hd1 Hok Hbetween)
    as (s3 & d3 & Hsecond & Hd3 & Hfc & Hsame & _ & Heff & _).
  exists r1, s1, [r2], s2, s3, d3. rewrite Hsame, Hout. auto 10.
Defined.

Lemma cache_hit_returns_marked_entry_witness :
  ∃ l s1 d s3,
    Api.prompt (flaky 0) (api 3 10) "hi" None true (initial 0 init_db) = Some (l, s1)
    ∧ heap s1 !! l = Some d
    ∧ d !! "attempt" = Some (VInt 1)
    ∧ Api.prompt (flaky 0) (api 3 10) "hi" None true s1 = Some (l, s3)
    ∧ heap s3 !! l = Some (<["from_cache" := VBool true]> d)
    ∧ effects s3 = effects s1.
Proof.
  destruct (EngineFacts.prompt_total (flaky 0) (api 3 10) "hi" None true (initial 0 init_db))
    as (l & s1 & Hfirst).
  assert (∃ d, heap s1 !! l = Some d ∧ d !! "success" = Some (VBool true)
               ∧ d !! "attempt" = Some (VInt 1)) as (d & Hd & Hok & Hattempt).
  { vm_compute in Hfirst. injection Hfirst as <- <-. eexists. repeat split; reflexivity. }
  destruct (EngineFacts.cache_hit_returns_marked_entry (flaky 0) (api 3 10) "hi" None
              (initial 0 init_db) s1 s1 l d [] [] eq_refl Hfirst Hd Hok eq_refl)
    as (s3 & k & _ & _ & _ & _ & Hhit & Hd3 & _ & Heff & _).
  exists l, s1, d, s3. auto 10.
Defined.

Lemma job_status_moves_forward_witness :
  ∃ trace r1 s1 r3 s3,
    run_actions (flaky 0) polling (started 0 init_db) = Some trace
    ∧ trace !! 1%nat = Some (r1, s1)
    ∧ trace !! 3%nat = Some (r3, s3)
    ∧ status "job-1" s1 = Some (VStr "processing")
    ∧ status "job-1" s3 = Some (VStr "completed")
    ∧ forward (status "job-1" s1) (status "job-1" s3).
Proof.
  destruct (run_actions (flaky 0) polling (started 0 init_db)) as [trace|] eqn:Hrun;
    [|vm_compute in Hrun; discriminate].
  assert (∃ r1 s1 r3 s3, trace !! 1%nat = Some (r1, s1) ∧ trace !! 3%nat = Some (r3, s3)
            ∧ status "job-1" s1 = Some (VStr "processing")
            ∧ status "job-1" s3 = Some (VStr "completed"))
    as (r1 & s1 & r3 & s3 & H1 & H3 & Hp & Hc).
  { vm_compute in Hrun. injection Hrun as <-. eexists _, _, _, _. repeat split; reflexivity. }
  destruct (ServerFacts.job_status_moves_forward (flaky 0) 0 init_db polling trace "job-1"
              1 3 r1 r3 s1 s3 Hrun ltac:(lia) H1 H3) as (Hforward & _).
  exists trace, r1, s1, r3, s3. auto 10.
Defined.

(** C2 as stated fails: a job whose request failed (the command failed on
    every attempt, so the runner returned a failure) ends with the status
    "completed", not a status of its own for failures. *)
Lemma failed_job_reads_completed :
  ∃ trace r s result d,
    run_actions (flaky 9) [PostPromptAsync "job-1" "hi" None; Worker] (started 0 init_db)
    = Some trace
    ∧ last trace = Some (r, s)
    ∧ status "job-1" s = Some (VStr "completed")
    ∧ job_results s !! "job-1" ≫= (.!! "result") = Some (VRef result)
    ∧ heap s !! result = Some d
    ∧ d !! "success" = Some (VBool false)
    ∧ status "job-1" s ≠ Some (VStr "failed").
Proof.
  eexists _, _, _, _, _. split; [vm_compute; reflexivity|].
  split; [reflexivity|]. split; [reflexivity|]. split; [reflexivity|].
  split; [reflexivity|]. split; [reflexivity|]. discriminate.
Qed.

End Checks.

(** * Further properties *)

(** ** The rate limiter *)

Module LimiterMore.

Import Py RateLimiter More.

(** X1. When the clock does not run backwards between the DELETE and the
    COUNT, [can_make_request] allows a request exactly when a usage
    snapshot taken at the instant of the COUNT shows a positive
    [remaining_this_hour]. *)
Theorem allowed_iff_quota_remains (max_requests : Z) (ck : Readings) (d : Database)
    (at_today : Z) :
  (at_delete ck ≤ at_count ck)%Z →
  (can_make_request max_requests ck d).1.1 = true
  ↔ (0 < remaining_this_hour (get_usage_stats max_requests (at_count ck) at_today d))%Z.
Proof.
  intros Hclock. unfold can_make_request, get_usage_stats. simpl.
  rewrite LimiterFacts.count_recent_after_delete by exact Hclock.
  destruct (_ <? _)%Z eqn:Hlt.
  - simpl. split; [intros _; lia|reflexivity].
  - destruct (sql_min_recent _ _); simpl; (split; [discriminate|lia]).
Qed.

Lemma count_recent_drops (now now' : Z) (rows : list RateRecord) (last : Z) (r : RateRecord) :
  (now ≤ now')%Z →
  r ∈ rows →
  (rr_timestamp r > now - hour)%Z →
  (rr_timestamp r ≤ now' - hour)%Z →
  (sql_count_recent now' {| db_rows := rows; db_last_id := last |}
   < sql_count_recent now {| db_rows := rows; db_last_id := last |})%Z.
Proof.
  intros Hle Hin Hnew Hold. induction rows as [|x rows IH]; [inversion Hin|].
  rewrite !LimiterFacts.count_rows_cons.
  pose proof (LimiterFacts.count_recent_antitone now now'
                {| db_rows := rows; db_last_id := last |} Hle) as Hrest.
  apply elem_of_cons in Hin as [<-|Hin].
  - destruct (decide (rr_timestamp r > now' - hour)%Z);
      destruct (decide (rr_timestamp r > now - hour)%Z); lia.
  - specialize (IH Hin).
    destruct (decide (rr_timestamp x > now' - hour)%Z);
      destruct (decide (rr_timestamp x > now - hour)%Z); lia.
Qed.

(** X2. A store within its quota (with a positive quota) whose clocks all
    show the instant [now]: when [can_make_request] denies and returns the
    wait [w], every check made at [now + w] or later, with a clock that
    does not run backwards, is allowed. *)
Theorem waiting_reopens_the_window (max_requests now w : Z) (d d' : Database)
    (ck : Readings) :
  (0 < max_requests)%Z →
  (sql_count_recent now d ≤ max_requests)%Z →
  can_make_request max_requests (on_the_second now) d = ((false, Some w), d') →
  (now + w ≤ at_delete ck)%Z →
  (at_delete ck ≤ at_count ck)%Z →
  (can_make_request max_requests ck d').1.1 = true.
Proof.
  intros Hpos Hquota Hden Hlater Hclock.
  pose proof (LimiterFacts.can_make_request_keeps_file max_requests (on_the_second now) d)
    as Hfile.
  rewrite Hden in Hfile. simpl in Hfile. subst d'.
  pose proof (LimiterFacts.can_make_request_denied max_requests (on_the_second now) d
                (Some w)) as H.
  rewrite Hden in H. destruct (H eq_refl) as [Hfull Hw]. clear H. simpl in Hfull, Hw.
  rewrite LimiterFacts.count_recent_after_delete in Hfull by lia.
  unfold sql_min_recent in Hw.
  pose proof (LimiterFacts.minimum_spec (rr_timestamp <$> recent now d)) as Hmin.
  destruct (minimum _) as [oldest|].
  - destruct Hmin as [Hin _]. apply list_elem_of_fmap in Hin as (r & -> & Hr).
    unfold recent in Hr. apply list_elem_of_filter in Hr as [Hnew Hr].
    injection Hw as ->. unfold seconds_until_expiry in Hlater.
    replace ((rr_timestamp r + hour) * million - now * million)%Z
      with ((rr_timestamp r + hour - now) * million)%Z in Hlater by lia.
    rewrite Z.quot_mul in Hlater by (unfold million; lia).
    unfold can_make_request.
    rewrite LimiterFacts.count_recent_after_delete by exact Hclock.
    destruct d as [rows last]. simpl in Hr.
    assert (sql_count_recent (at_count ck) {| db_rows := rows; db_last_id := last |}
            < sql_count_recent now {| db_rows := rows; db_last_id := last |})%Z as Hdrop.
    { apply (count_recent_drops now (at_count ck) rows last r); [lia|exact Hr|exact Hnew|lia]. }
    destruct (_ <? _)%Z eqn:Hlt; [reflexivity|]. apply Z.ltb_ge in Hlt. lia.
  - apply fmap_nil_inv in Hmin. unfold sql_count_recent in Hfull. rewrite Hmin in Hfull.
    simpl in Hfull. lia.
Qed.

(** X3. The wait that [can_make_request] returns with a denial is at least
    1 second; it is at most 3600 seconds when no row is stamped later than
    the instant of the second query and Python's clock is not behind that
    instant. *)
Theorem denied_wait_bounds (max_requests w : Z) (ck : Readings) (d d' : Database) :
  can_make_request max_requests ck d = ((false, Some w), d') →
  (∀ r, r ∈ db_rows d → (rr_timestamp r ≤ at_min ck)%Z) →
  (at_min ck * million ≤ py_now_us ck)%Z →
  (1 ≤ w ≤ 3600)%Z.
Proof.
  intros Hden Hpast Hpy.
  pose proof (LimiterFacts.can_make_request_denied max_requests ck d (Some w)) as H.
  rewrite Hden in H. destruct (H eq_refl) as [_ Hw]. clear H.
  unfold sql_min_recent in Hw.
  pose proof (LimiterFacts.minimum_spec (rr_timestamp <$> recent (at_min ck) d)) as Hmin.
  destruct (minimum _) as [oldest|]; injection Hw as ->; [|lia].
  destruct Hmin as [Hin _]. apply list_elem_of_fmap in Hin as (r & -> & Hr).
  apply list_elem_of_filter in Hr as [_ Hr]. specialize (Hpast r Hr).
  split; [lia|]. apply Z.max_lub; [lia|]. unfold seconds_until_expiry.
  transitivity ((3600 * million) ÷ million)%Z.
  - apply Z.quot_le_mono; unfold million, hour in *; lia.
  - rewrite Z.quot_mul; unfold million; lia.
Qed.

(** X4. [record_request] on a table whose ids are distinct and not above
    the AUTOINCREMENT counter: the new row gets an id that no row has, the
    ids stay distinct and below the counter, and the number of rows of the
    trailing hour, counted at the instant of the insert, grows by exactly
    one. *)
Theorem record_request_adds_one_row (md5 : string → string) (now : Z) (prompt : string)
    (response_length : Z) (d : Database) :
  ids_ok d →
  ids_ok (record_request md5 now prompt response_length d)
  ∧ ((db_last_id d + 1)%Z ∉ (rr_id <$> db_rows d))
  ∧ db_rows (record_request md5 now prompt response_length d)
    = db_rows d ++ [ {| rr_id := db_last_id d + 1; rr_timestamp := now;
                        rr_prompt_hash := md5 prompt;
                        rr_response_length := response_length |} ]
  ∧ sql_count_recent now (record_request md5 now prompt response_length d)
    = (sql_count_recent now d + 1)%Z.
Proof.
  intros [Hnodup Hle].
  assert ((db_last_id d + 1)%Z ∉ (rr_id <$> db_rows d)) as Hfresh.
  { intros (r & Hid & Hr)%list_elem_of_fmap. specialize (Hle r Hr). lia. }
  split; [|split; [exact Hfresh|split; [reflexivity|]]].
  - split.
    + unfold record_request, sql_insert. simpl. rewrite fmap_app. simpl.
      apply NoDup_app. split; [exact Hnodup|]. split.
      * intros x Hx ->%list_elem_of_singleton. contradiction.
      * apply NoDup_singleton.
    + unfold record_request, sql_insert. simpl. intros r [Hr|Hr]%elem_of_app.
      * specialize (Hle r Hr). lia.
      * apply list_elem_of_singleton in Hr. subst r. simpl. lia.
  - unfold record_request. rewrite LimiterFacts.count_recent_after_insert.
    destruct (decide _) as [_|Hn]; [reflexivity|]. exfalso. apply Hn. unfold hour. lia.
Qed.



Lemma count_recent_keeps (now now' : Z) (d : Database) :
  (∀ r, r ∈ db_rows d → (rr_timestamp r > now - hour)%Z → (rr_timestamp r > now' - hour)%Z) →
  (sql_count_recent now d ≤ sql_count_recent now' d)%Z.
Proof.
  destruct d as [rows last]. simpl. intros Hkeep. induction rows as [|x rows IH].
  - reflexivity.
  - rewrite !LimiterFacts.count_rows_cons.
    assert (sql_count_recent now {| db_rows := rows; db_last_id := last |}
            ≤ sql_count_recent now' {| db_rows := rows; db_last_id := last |})%Z as Hrest.
    { apply IH. intros r Hr. apply Hkeep. right. exact Hr. }
    specialize (Hkeep x ltac:(left)).
    destruct (decide (rr_timestamp x > now - hour)%Z);
      destruct (decide (rr_timestamp x > now' - hour)%Z); lia.
Qed.

(** X16. The wait is truncated to whole seconds. When [can_make_request]
    denies at a moment that is not on a whole second of Python's clock (the
    clocks agree otherwise) and the wait [w] it returns is 2 seconds or
    more, a check made exactly [w] seconds later is denied again: the
    oldest row is still in the window for the rest of that second. *)
Theorem truncated_wait_falls_short (max_requests t f w : Z) (d d' : Database) :
  (0 < f < million)%Z →
  can_make_request max_requests
    {| at_delete := t; at_count := t; at_min := t; py_now_us := t * million + f |} d
  = ((false, Some w), d') →
  (2 ≤ w)%Z →
  (can_make_request max_requests (on_the_second (t + w)) d').1.1 = false.
Proof.
  intros Hf Hden Hw.
  set (ck := {| at_delete := t; at_count := t; at_min := t;
                py_now_us := t * million + f |}) in *.
  pose proof (LimiterFacts.can_make_request_keeps_file max_requests ck d) as Hfile.
  rewrite Hden in Hfile. simpl in Hfile. subst d'.
  pose proof (LimiterFacts.can_make_request_denied max_requests ck d (Some w)) as H.
  rewrite Hden in H. destruct (H eq_refl) as [Hfull Hwait]. clear H. simpl in Hfull, Hwait.
  rewrite LimiterFacts.count_recent_after_delete in Hfull by lia.
  assert (sql_count_recent t d ≤ sql_count_recent (t + w) d)%Z as Hkeep.
  { unfold sql_min_recent in Hwait.
    pose proof (LimiterFacts.minimum_spec (rr_timestamp <$> recent t d)) as Hmin.
    destruct (minimum _) as [oldest|].
    - destruct Hmin as [_ Hleast]. injection Hwait as Hwait.
      assert (w = oldest + hour - t - 1)%Z as ->.
      { unfold seconds_until_expiry in Hwait.
        set (v := ((oldest + hour) * million - (t * million + f))%Z) in *.
        assert (0 ≤ v)%Z as Hv.
        { destruct (Z_lt_le_dec v 0) as [Hneg|Hnn]; [|exact Hnn].
          assert (v ÷ million ≤ 0 ÷ million)%Z
            by (apply Z.quot_le_mono; unfold million; lia).
          rewrite Z.quot_0_l in * by (unfold million; lia). lia. }
        rewrite Z.quot_div_nonneg in Hwait by (unfold million; lia).
        unfold v, million, hour in *.
        replace ((oldest + 3600) * 1000000 - (t * 1000000 + f))%Z
          with ((oldest + 3600 - t - 1) * 1000000 + (1000000 - f))%Z in Hwait by lia.
        rewrite Z.div_add_l, Z.div_small in Hwait by lia. lia. }
      apply count_recent_keeps. intros r Hr Hnew.
      assert (oldest ≤ rr_timestamp r)%Z.
      { apply Hleast. apply list_elem_of_fmap. exists r. split; [reflexivity|].
        apply list_elem_of_filter. split; assumption. }
      unfold hour in *. lia.
    - apply fmap_nil_inv in Hmin. unfold sql_count_recent at 1. rewrite Hmin. simpl.
      apply LimiterFacts.count_recent_nonneg. }
  unfold can_make_request. simpl. rewrite LimiterFacts.count_recent_after_delete by lia.
  destruct (_ <? _)%Z eqn:Hlt.
  - apply Z.ltb_lt in Hlt. lia.
  - destruct (sql_min_recent (t + w) d); reflexivity.
Qed.

(** X17. The wait is computed from Python's local clock against row stamps
    in UTC. When the local clock is an hour or more ahead of the instant of
    the second query and no row is stamped after that instant, every denial
    that finds a row returns a wait of 1 second, however long the oldest
    row still has to stay in the window. *)
Theorem wait_is_one_when_local_clock_is_ahead (max_requests w : Z) (ck : Readings)
    (d d' : Database) :
  can_make_request max_requests ck d = ((false, Some w), d') →
  recent (at_min ck) d ≠ [] →
  (∀ r, r ∈ db_rows d → (rr_timestamp r ≤ at_min ck)%Z) →
  ((at_min ck + hour) * million ≤ py_now_us ck)%Z →
  w = 1%Z.
Proof.
  intros Hden Hrows Hpast Hahead.
  pose proof (LimiterFacts.can_make_request_denied max_requests ck d (Some w)) as H.
  rewrite Hden in H. destruct (H eq_refl) as [_ Hw]. clear H.
  unfold sql_min_recent in Hw.
  pose proof (LimiterFacts.minimum_spec (rr_timestamp <$> recent (at_min ck) d)) as Hmin.
  destruct (minimum _) as [oldest|].
  - destruct Hmin as [Hin _]. apply list_elem_of_fmap in Hin as (r & -> & Hr).
    apply list_elem_of_filter in Hr as [_ Hr]. specialize (Hpast r Hr).
    injection Hw as ->. unfold seconds_until_expiry.
    assert (((rr_timestamp r + hour) * million - py_now_us ck) ÷ million ≤ 0 ÷ million)%Z
      by (apply Z.quot_le_mono; unfold million, hour in *; lia).
    rewrite Z.quot_0_l in * by (unfold million; lia). lia.
  - apply fmap_nil_inv in Hmin. contradiction.
Qed.

End LimiterMore.

(** ** The engine *)

Module EngineMore.

Import Py RateLimiter Runtime Engine EngineFacts More.

Section Requests.

Context (h : Host) (self : Api.GeminiAPI).

(** What the loop does to the table: one row for a result, none otherwise. *)
Lemma attempts_db (text : string) (extra_flags : option (list string))
    (use_cache : bool) (n : nat) :
  ∀ (attempt : Z) (last_error : Val) (s : State) (r : nat + Val) (s' : State),
    Api.attempts h self text extra_flags use_cache n attempt last_error s = Some (r, s') →
    match r with
    | inl result =>
        ∃ stdout d,
          heap s' !! result = Some d
          ∧ d !! "output" = Some (VStr stdout)
          ∧ db s' = record_request (md5 h) (sql_now s') text
                      (Z.of_nat (String.length stdout)) (db s)
    | inr _ => db s' = db s
    end.
Proof.
  induction n as [|n IH]; intros attempt last_error s r s' Hrun.
  - injection Hrun as <- <-. reflexivity.
  - rewrite attempts_step in Hrun.
    set (cmd := Api.command self text extra_flags) in *.
    set (s0 := slept attempt s) in *.
    destruct (succeeded (outcome h cmd s0)) eqn:Hok.
    + injection Hrun as <- <-.
      apply succeeded_exit_zero in Hok as (so & se & Hout).
      destruct (lookup_finished h self text extra_flags use_cache attempt
                  (length (heap s)) (output_length (outcome h cmd s0))
                  (executed h cmd s0) (Api.outcome_result cmd (outcome h cmd s0)))
        as [u Hd].
      { rewrite <- (heap_slept attempt s). apply lookup_executed. }
      eexists so, _. split; [exact Hd|]. rewrite Hout. split; [reflexivity|].
      unfold finished. simpl output_length.
      replace (db s) with (db (executed h cmd s0))
        by (unfold s0; simpl; apply db_slept).
      destruct use_cache; reflexivity.
    + apply IH in Hrun. replace (db s) with (db (executed h cmd s0))
        by (unfold s0; simpl; apply db_slept). exact Hrun.
Qed.

(** The row that a request that ran the command with success adds. *)
Lemma miss_success_db (text : string) (extra_flags : option (list string))
    (use_cache : bool) (s s' : State) (r : nat) (d : gmap string Val) :
  cached h text extra_flags use_cache s = None →
  Api.prompt h self text extra_flags use_cache s = Some (r, s') →
  heap s' !! r = Some d →
  d !! "success" = Some (VBool true) →
  ∃ stdout,
    d !! "output" = Some (VStr stdout)
    ∧ db s' = record_request (md5 h) (sql_now s') text
                (Z.of_nat (String.length stdout)) (db s).
Proof.
  intros Hc Hrun Hd Hok. destruct (admitted h self s) eqn:Hadm.
  - rewrite (prompt_admitted h self _ _ _ _ Hc Hadm) in Hrun.
    destruct (Api.attempts _ _ _ _ _ _ _ _ _) as [[[result|e] s1]|] eqn:Hloop;
      [| |discriminate]; injection Hrun as <- <-.
    + apply attempts_db in Hloop as (so & d' & Hd' & Hout & Hdb).
      rewrite Hd in Hd'. injection Hd' as <-. eauto.
    + simpl in Hd. rewrite list_lookup_middle in Hd by reflexivity. injection Hd as <-.
      discriminate.
  - rewrite (prompt_denied h self _ _ _ _ Hc Hadm) in Hrun. injection Hrun as <- <-.
    simpl in Hd. rewrite list_lookup_middle in Hd by reflexivity. injection Hd as <-.
    discriminate.
Qed.

(** X6. A call of [prompt] adds a row to the table exactly when it ran the
    command with success, and then exactly one row, stamped at the instant
    of the record with the length of the output; a request served from the
    cache, a denied request and a request whose attempts all failed leave
    the table as it was. *)
Theorem prompt_records_successful_runs_only (text : string)
    (extra_flags : option (list string)) (use_cache : bool) (s s' : State) (r : nat)
    (d : gmap string Val) :
  Api.prompt h self text extra_flags use_cache s = Some (r, s') →
  heap s' !! r = Some d →
  (cached h text extra_flags use_cache s = None ∧ d !! "success" = Some (VBool true) →
   ∃ stdout,
     d !! "output" = Some (VStr stdout)
     ∧ db s' = record_request (md5 h) (sql_now s') text
                 (Z.of_nat (String.length stdout)) (db s))
  ∧ (cached h text extra_flags use_cache s ≠ None ∨ d !! "success" ≠ Some (VBool true) →
     db s' = db s).
Proof.
  intros Hrun Hd.
  destruct (cached h text extra_flags use_cache s) as [l|] eqn:Hc.
  - rewrite (prompt_hit h self _ _ _ _ _ Hc) in Hrun. injection Hrun as <- <-.
    split; [intros [[=] _]|reflexivity].
  - destruct (admitted h self s) eqn:Hadm.
    + rewrite (prompt_admitted h self _ _ _ _ Hc Hadm) in Hrun.
      destruct (Api.attempts _ _ _ _ _ _ _ _ _) as [[[result|e] s1]|] eqn:Hloop;
        [| |discriminate]; injection Hrun as <- <-.
      * assert (use_cache = true →
                response_cache (checked s) !! Api.cache_key h text extra_flags = None)
          as Hmiss by (intros ->; exact Hc).
        destruct (attempts_extends h self _ _ _ _ _ _ _ _ _ Hmiss Hloop)
          as [_ (_ & _ & _ & d' & Hd' & Hok & _)].
        rewrite Hd in Hd'. injection Hd' as <-.
        apply attempts_db in Hloop as (so & d' & Hd' & Hout & Hdb).
        rewrite Hd in Hd'. injection Hd' as <-.
        split; [intros _; eauto|]. intros [Hx|Hx]; contradiction.
      * apply attempts_db in Hloop. simpl in Hd.
        rewrite list_lookup_middle in Hd by reflexivity. injection Hd as <-.
        split; [intros [_ [=]]|intros _; exact Hloop].
    + rewrite (prompt_denied h self _ _ _ _ Hc Hadm) in Hrun. injection Hrun as <- <-.
      simpl in Hd. rewrite list_lookup_middle in Hd by reflexivity. injection Hd as <-.
      split; [intros [_ [=]]|reflexivity].
Qed.

(** X7. The usage snapshot in the result of a request that ran the command
    with success already counts that request: its [requests_last_hour] is
    one more than the rows that the table held before, counted at the
    instant of the snapshot, and [remaining_this_hour] is the quota minus
    that number. *)
Theorem successful_result_usage_counts_the_request (text : string)
    (extra_flags : option (list string)) (use_cache : bool) (s s' : State) (r : nat)
    (d : gmap string Val) :
  cached h text extra_flags use_cache s = None →
  Api.prompt h self text extra_flags use_cache s = Some (r, s') →
  heap s' !! r = Some d →
  d !! "success" = Some (VBool true) →
  ∃ u,
    d !! "usage" = Some (VUsage u)
    ∧ requests_last_hour u = (sql_count_recent (sql_now s') (db s) + 1)%Z
    ∧ remaining_this_hour u = (Api.max_requests self - requests_last_hour u)%Z
    ∧ max_per_hour u = Api.max_requests self.
Proof.
  intros Hc Hrun Hd Hok.
  destruct (prompt_miss_success h self _ _ _ _ _ _ _ Hc Hrun Hd Hok) as (_ & Hu & _).
  destruct (miss_success_db _ _ _ _ _ _ _ Hc Hrun Hd Hok) as (so & _ & Hdb).
  exists (usage_now self s'). split; [exact Hu|].
  unfold usage_now, get_usage_stats. simpl. rewrite Hdb. unfold record_request.
  rewrite LimiterFacts.count_recent_after_insert.
  destruct (decide _) as [_|Hn]; [auto|]. exfalso. apply Hn. unfold hour. lia.
Qed.

(** The cache after the loop: the entry of the request when a result comes
    out of a run with [use_cache], the cache as it was otherwise. *)
Lemma attempts_cache (text : string) (extra_flags : option (list string))
    (use_cache : bool) (n : nat) :
  ∀ (attempt : Z) (last_error : Val) (s : State) (r : nat + Val) (s' : State),
    Api.attempts h self text extra_flags use_cache n attempt last_error s = Some (r, s') →
    response_cache s'
    = match r with
      | inl result =>
          if use_cache
          then <[Api.cache_key h text extra_flags := result]> (response_cache s)
          else response_cache s
      | inr _ => response_cache s
      end.
Proof.
  induction n as [|n IH]; intros attempt last_error s r s' Hrun.
  - injection Hrun as <- <-. reflexivity.
  - rewrite attempts_step in Hrun. destruct (succeeded _).
    + injection Hrun as <- <-. unfold finished.
      destruct use_cache; simpl; rewrite cache_slept; reflexivity.
    + apply IH in Hrun. rewrite Hrun. simpl. rewrite cache_slept. reflexivity.
Qed.

(** X9. The cache only ever holds results of successful runs: a call of
    [prompt] in a state where every cache entry refers to a successful
    result leaves such a state, and a request that it serves from the cache
    gets a successful result, marked [from_cache]. A failure is never stored
    and never served from the cache. *)
Theorem cache_holds_successes_only (text : string) (extra_flags : option (list string))
    (use_cache : bool) (s s' : State) (r : nat) :
  cache_sound s →
  Api.prompt h self text extra_flags use_cache s = Some (r, s') →
  cache_sound s'
  ∧ (cached h text extra_flags use_cache s ≠ None →
     ∃ d, heap s' !! r = Some d
          ∧ d !! "success" = Some (VBool true)
          ∧ d !! "from_cache" = Some (VBool true)).
Proof.
  intros Hsound Hrun.
  assert (∀ k l, response_cache s !! k = Some l →
            ∃ d, heap s' !! l = Some d ∧ d !! "success" = Some (VBool true)) as Hold.
  { intros k l Hk. destruct (Hsound k l Hk) as (d & Hd & Hok).
    destruct (prompt_extends h self _ _ _ _ _ _ Hrun) as [Hheap _ _ _ _].
    destruct (Hheap l d Hd) as (d' & Hd' & Hm). exists d'. split; [exact Hd'|].
    rewrite (marked_lookup _ _ _ Hm) by done. exact Hok. }
  destruct (cached h text extra_flags use_cache s) as [l|] eqn:Hc.
  - rewrite (prompt_hit h self _ _ _ _ _ Hc) in Hrun. injection Hrun as <- <-. split.
    + intros k l' Hk. apply (Hold k l' Hk).
    + intros _. unfold cached in Hc. destruct use_cache; [|discriminate].
      destruct (Hsound _ _ Hc) as (d & Hd & Hok).
      exists (<["from_cache" := VBool true]> d). split; [|split].
      * simpl. rewrite list_lookup_alter_eq, Hd. reflexivity.
      * rewrite lookup_insert_ne by done. exact Hok.
      * apply lookup_insert_eq.
  - split; [|intros Hx; contradiction].
    destruct (admitted h self s) eqn:Hadm.
    + rewrite (prompt_admitted h self _ _ _ _ Hc Hadm) in Hrun.
      destruct (Api.attempts _ _ _ _ _ _ _ _ _) as [[[result|e] s1]|] eqn:Hloop;
        [| |discriminate]; injection Hrun as <- <-.
      * assert (use_cache = true →
                response_cache (checked s) !! Api.cache_key h text extra_flags = None)
          as Hmiss by (intros ->; exact Hc).
        destruct (attempts_extends h self _ _ _ _ _ _ _ _ _ Hmiss Hloop)
          as [_ (_ & _ & _ & d & Hd & Hok & _)].
        apply attempts_cache in Hloop. intros k l. rewrite Hloop.
        destruct use_cache; [|apply Hold].
        destruct (decide (Api.cache_key h text extra_flags = k)) as [<-|Hne].
        -- rewrite lookup_insert_eq. intros [= <-]. eauto.
        -- rewrite lookup_insert_ne by done. apply Hold.
      * apply attempts_cache in Hloop. intros k l. simpl. rewrite Hloop. apply Hold.
    + rewrite (prompt_denied h self _ _ _ _ Hc Hadm) in Hrun. injection Hrun as <- <-.
      intros k l. apply Hold.
Qed.

Lemma slept_for_app (es1 es2 : list Effect) :
  slept_for (es1 ++ es2) = (slept_for es1 + slept_for es2)%Z.
Proof.
  induction es1 as [|e es1 IH]; [reflexivity|]. destruct e; simpl; rewrite IH; lia.
Qed.

(** The work of the loop from an attempt after the first one. *)
Lemma attempts_work (text : string) (extra_flags : option (list string))
    (use_cache : bool) (n : nat) :
  ∀ (attempt : Z) (last_error : Val) (s : State) (r : nat + Val) (s' : State),
    (1 ≤ attempt)%Z →
    Api.attempts h self text extra_flags use_cache n attempt last_error s = Some (r, s') →
    ∃ tr,
      effects s' = effects s ++ tr
      ∧ (calls s ≤ calls s' ≤ calls s + n)%nat
      ∧ (0 ≤ slept_for tr ≤ 2 ^ (attempt + Z.of_nat n) - 2 ^ attempt)%Z.
Proof.
  induction n as [|n IH]; intros attempt last_error s r s' Hpos Hrun.
  - injection Hrun as <- <-. exists []. rewrite app_nil_r, Z.add_0_r. simpl.
    repeat split; lia.
  - rewrite attempts_step in Hrun.
    assert (0 < 2 ^ attempt)%Z as Hpow by (apply Z.pow_pos_nonneg; lia).
    assert (2 ^ (attempt + 1) = 2 * 2 ^ attempt)%Z as Hsucc
      by (rewrite Z.pow_add_r by lia; lia).
    assert (2 ^ (attempt + 1) ≤ 2 ^ (attempt + Z.of_nat (S n)))%Z as Hmono
      by (apply Z.pow_le_mono_r; lia).
    assert ((0 <? attempt)%Z = true) as Hlt by (apply Z.ltb_lt; lia).
    destruct (succeeded _).
    + injection Hrun as <- <-. eexists.
      rewrite effects_finished, effects_executed, effects_slept, Hlt, <- !app_assoc.
      split; [reflexivity|].
      rewrite calls_finished, calls_executed, calls_slept. simpl. split; lia.
    + apply IH in Hrun as (tr & Htr & Hcalls & Hsl); [|lia].
      rewrite calls_executed, calls_slept in Hcalls.
      replace (attempt + 1 + Z.of_nat n)%Z with (attempt + Z.of_nat (S n))%Z in Hsl by lia.
      eexists. rewrite Htr, effects_executed, effects_slept, Hlt, <- !app_assoc.
      split; [reflexivity|]. simpl. split; lia.
Qed.

(** X10. Whatever the command does, a call of [prompt] that returns has
    started at most [max_retries] child processes and has slept, in all, at
    most [2 ^ max_retries - 2] seconds (not at all when [max_retries] is 1
    or less). *)
Theorem prompt_work_is_bounded (text : string) (extra_flags : option (list string))
    (use_cache : bool) (s : State) (r : nat) (s' : State) :
  Api.prompt h self text extra_flags use_cache s = Some (r, s') →
  ∃ tr,
    effects s' = effects s ++ tr
    ∧ (calls s ≤ calls s' ≤ calls s + Z.to_nat (Api.max_retries self))%nat
    ∧ (0 ≤ slept_for tr ≤ Z.max 0 (2 ^ Api.max_retries self - 2))%Z.
Proof.
  intros Hrun.
  destruct (cached h text extra_flags use_cache s) as [l|] eqn:Hc.
  - rewrite (prompt_hit h self _ _ _ _ _ Hc) in Hrun. injection Hrun as <- <-.
    exists []. rewrite app_nil_r. simpl. repeat split; lia.
  - destruct (admitted h self s) eqn:Hadm.
    + rewrite (prompt_admitted h self _ _ _ _ Hc Hadm) in Hrun.
      assert (∀ r1 s1,
                Api.attempts h self text extra_flags use_cache
                  (Z.to_nat (Api.max_retries self)) 0 VNone (checked s) = Some (r1, s1) →
                ∃ tr,
                  effects s1 = effects s ++ CanMakeRequest :: tr
                  ∧ (calls s ≤ calls s1 ≤ calls s + Z.to_nat (Api.max_retries self))%nat
                  ∧ (0 ≤ slept_for tr ≤ Z.max 0 (2 ^ Api.max_retries self - 2))%Z)
        as Hwork.
      { intros r1 s1 Hloop.
        destruct (Z.to_nat (Api.max_retries self)) as [|n] eqn:Hn.
        - injection Hloop as <- <-. exists []. split; [reflexivity|]. simpl. split; lia.
        - assert (Api.max_retries self = Z.of_nat (S n)) as Hm by lia.
          rewrite attempts_step in Hloop.
          change (slept 0 (checked s)) with (checked s) in Hloop.
          destruct (succeeded _).
          + injection Hloop as <- <-. eexists.
            rewrite effects_finished, effects_executed, calls_finished, calls_executed.
            simpl. rewrite <- !app_assoc. split; [reflexivity|].
            assert (2 ^ 1 ≤ 2 ^ Api.max_retries self)%Z
              by (apply Z.pow_le_mono_r; lia).
            simpl. split; lia.
          + apply attempts_work in Hloop as (tr & Htr & Hcalls & Hsl); [|lia].
            rewrite calls_executed in Hcalls. rewrite effects_executed in Htr.
            simpl in Htr. rewrite <- !app_assoc in Htr.
            eexists. split; [exact Htr|].
            replace (0 + 1 + Z.of_nat n)%Z with (Api.max_retries self) in Hsl by lia.
            change (calls (checked s)) with (calls s) in Hcalls.
            simpl. split; lia. }
      destruct (Api.attempts _ _ _ _ _ _ _ _ _) as [[[result|e] s1]|] eqn:Hloop;
        [| |discriminate]; injection Hrun as <- <-;
        destruct (Hwork _ _ eq_refl) as (tr & Htr & Hcalls & Hsl).
      * eexists. split; [exact Htr|]. split; assumption.
      * exists (CanMakeRequest :: tr ++ [GetUsageStats]).
        split; [simpl; rewrite Htr, <- app_assoc; reflexivity|]. split; [exact Hcalls|].
        simpl. rewrite slept_for_app. simpl. lia.
    + rewrite (prompt_denied h self _ _ _ _ Hc Hadm) in Hrun. injection Hrun as <- <-.
      exists [CanMakeRequest; GetUsageStats].
      split; [simpl; rewrite <- app_assoc; reflexivity|]. simpl. repeat split; lia.
Qed.

(** X11. A request that misses the cache and is admitted, and whose command
    fails on the first [k] attempts and succeeds on the next one, with [k]
    less than [max_retries]: [prompt] runs the command [k + 1] times, sleeps
    [2 ^ i] seconds before the run numbered [i] (from 0) for each [i] from 1
    to [k], records the request once, and returns the successful result
    with attempt count [k + 1]. *)
Theorem success_after_failures (text : string) (extra_flags : option (list string))
    (use_cache : bool) (s : State) (k : nat) (stdout stderr : string) :
  let cmd := Api.command self text extra_flags in
  (k < Z.to_nat (Api.max_retries self))%nat →
  cached h text extra_flags use_cache s = None →
  admitted h self s = true →
  (∀ i, (i < k)%nat → succeeded (subprocess_run h (calls s + i) cmd).1 = false) →
  (subprocess_run h (calls s + k) cmd).1 = Exited 0 stdout stderr →
  ∃ r s' d,
    Api.prompt h self text extra_flags use_cache s = Some (r, s')
    ∧ effects s' = effects s ++ CanMakeRequest :: failed_attempts cmd k 0
                     ++ (if (0 <? Z.of_nat k)%Z then [Sleep (2 ^ Z.of_nat k)] else [])
                     ++ [Execute cmd; RecordRequest text (Z.of_nat (String.length stdout));
                         GetUsageStats]
    ∧ calls s' = (calls s + k + 1)%nat
    ∧ heap s' !! r = Some d
    ∧ d !! "success" = Some (VBool true)
    ∧ d !! "output" = Some (VStr stdout)
    ∧ d !! "attempt" = Some (VInt (Z.of_nat k + 1)).
Proof.
  intros cmd Hk Hc Hadm Hfail Hok.
  rewrite (prompt_admitted h self _ _ _ _ Hc Hadm).
  replace (Z.to_nat (Api.max_retries self))
    with (k + S (Z.to_nat (Api.max_retries self) - S k))%nat by lia.
  rewrite attempts_after_failures by exact Hfail. fold cmd.
  rewrite attempts_step. fold cmd.
  set (sk := after_failures h cmd k 0 (checked s)).
  assert (outcome h cmd (slept (0 + Z.of_nat k) sk) = Exited 0 stdout stderr) as Hout.
  { unfold outcome. rewrite calls_slept. unfold sk. rewrite calls_after_failures. exact Hok. }
  rewrite Hout. simpl succeeded. cbv iota.
  destruct (lookup_finished h self text extra_flags use_cache (0 + Z.of_nat k)
              (length (heap sk)) (output_length (Exited 0 stdout stderr))
              (executed h cmd (slept (0 + Z.of_nat k) sk))
              (Api.outcome_result cmd (Exited 0 stdout stderr))) as [u Hd].
  { rewrite <- Hout. rewrite <- (heap_slept (0 + Z.of_nat k) sk). apply lookup_executed. }
  eexists _, _, _. split; [reflexivity|]. split; [|split; [|split; [exact Hd|]]].
  - rewrite effects_finished, effects_executed, effects_slept.
    unfold sk. rewrite effects_after_failures. simpl. rewrite <- !app_assoc. reflexivity.
  - rewrite calls_finished, calls_executed, calls_slept. unfold sk.
    rewrite calls_after_failures. simpl. lia.
  - repeat split; reflexivity.
Qed.

(** A request that misses the cache and is admitted starts a child process
    (with at least one attempt allowed). *)
Lemma miss_admitted_runs (text : string) (extra_flags : option (list string))
    (use_cache : bool) (s : State) :
  cached h text extra_flags use_cache s = None →
  admitted h self s = true →
  (0 < Api.max_retries self)%Z →
  ∃ r s', Api.prompt h self text extra_flags use_cache s = Some (r, s')
          ∧ (calls s < calls s')%nat.
Proof.
  intros Hc Hadm Hpos. rewrite (prompt_admitted h self _ _ _ _ Hc Hadm).
  destruct (Z.to_nat (Api.max_retries self)) as [|n] eqn:Hn; [lia|].
  rewrite attempts_step. change (slept 0 (checked s)) with (checked s).
  destruct (succeeded _).
  - eexists _, _. split; [reflexivity|]. rewrite calls_finished, calls_executed. simpl. lia.
  - destruct (attempts_total h self text extra_flags use_cache n (0 + 1)
                (error_text (outcome h (Api.command self text extra_flags) (checked s)))
                (executed h (Api.command self text extra_flags) (checked s)))
      as (r1 & s1 & Hloop).
    rewrite Hloop. apply attempts_work in Hloop as (tr & _ & Hcalls & _); [|lia].
    rewrite calls_executed in Hcalls. change (calls (checked s)) with (calls s) in Hcalls.
    destruct r1; eexists _, _; (split; [reflexivity|]); simpl; lia.
Qed.

(** X14. A call of [prompt] starts a child process exactly when the request
    misses the cache (or does not use it), the limiter admits it, and
    [max_retries] is at least 1. *)
Theorem command_runs_iff_missed_and_admitted (text : string)
    (extra_flags : option (list string)) (use_cache : bool) (s : State) :
  ∃ r s',
    Api.prompt h self text extra_flags use_cache s = Some (r, s')
    ∧ ((calls s < calls s')%nat
       ↔ cached h text extra_flags use_cache s = None
         ∧ admitted h self s = true
         ∧ (0 < Api.max_retries self)%Z).
Proof.
  destruct (cached h text extra_flags use_cache s) as [l|] eqn:Hc.
  - rewrite (prompt_hit h self _ _ _ _ _ Hc). eexists _, _. split; [reflexivity|].
    simpl. split; [lia|]. intros [[=] _].
  - destruct (admitted h self s) eqn:Hadm.
    + destruct (Z_lt_le_dec 0 (Api.max_retries self)) as [Hpos|Hnone].
      * rewrite <- Hc.
        destruct (miss_admitted_runs text extra_flags use_cache s Hc Hadm Hpos)
          as (r & s' & Hrun & Hcalls).
        exists r, s'. split; [exact Hrun|]. split; [auto|]. intros _. exact Hcalls.
      * rewrite (prompt_admitted h self _ _ _ _ Hc Hadm).
        replace (Z.to_nat (Api.max_retries self)) with 0%nat by lia.
        eexists _, _. split; [reflexivity|]. simpl. split; [lia|]. intros (_ & _ & Hx). lia.
    + rewrite (prompt_denied h self _ _ _ _ Hc Hadm). eexists _, _. split; [reflexivity|].
      simpl. split; [lia|]. intros (_ & [=] & _).
Qed.

Lemma now_slept (attempt : Z) (s : State) : (now_us s ≤ now_us (slept attempt s))%Z.
Proof.
  unfold slept. destruct (0 <? attempt)%Z eqn:Hlt; simpl; [|lia].
  apply Z.ltb_lt in Hlt. assert (0 < 2 ^ attempt)%Z by (apply Z.pow_pos_nonneg; lia).
  unfold million. lia.
Qed.

Lemma attempts_clock (text : string) (extra_flags : option (list string))
    (use_cache : bool) (n : nat) :
  time_passes h →
  ∀ (attempt : Z) (last_error : Val) (s : State) (r : nat + Val) (s' : State),
    Api.attempts h self text extra_flags use_cache n attempt last_error s = Some (r, s') →
    (now_us s ≤ now_us s')%Z.
Proof.
  intros Htime. induction n as [|n IH]; intros attempt last_error s r s' Hrun.
  - injection Hrun as <- <-. lia.
  - rewrite attempts_step in Hrun.
    pose proof (now_slept attempt s) as Hs.
    pose proof (Htime (calls (slept attempt s)) (Api.command self text extra_flags)) as He.
    assert (now_us (slept attempt s)
            ≤ now_us (executed h (Api.command self text extra_flags) (slept attempt s)))%Z
      as Hx by (simpl; lia).
    destruct (succeeded _).
    + injection Hrun as <- <-.
      assert (now_us (finished h self text extra_flags use_cache attempt (length (heap s))
                        (output_length
                           (outcome h (Api.command self text extra_flags) (slept attempt s)))
                        (executed h (Api.command self text extra_flags) (slept attempt s)))
              = now_us (executed h (Api.command self text extra_flags) (slept attempt s)))
        as -> by (unfold finished; destruct use_cache; reflexivity).
      lia.
    + apply IH in Hrun. lia.
Qed.

Lemma sql_now_mono (s s' : State) : (now_us s ≤ now_us s')%Z → (sql_now s ≤ sql_now s')%Z.
Proof. intros Hle. unfold sql_now, million. apply Z.div_le_mono; lia. Qed.

(** One call of [prompt] keeps the store within the quota. *)
Lemma prompt_in_quota (text : string) (extra_flags : option (list string))
    (use_cache : bool) (s s' : State) (r : nat) :
  time_passes h →
  in_quota self s →
  Api.prompt h self text extra_flags use_cache s = Some (r, s') →
  in_quota self s'.
Proof.
  intros Htime Hq Hrun.
  destruct (cached h text extra_flags use_cache s) as [l|] eqn:Hc.
  - rewrite (prompt_hit h self _ _ _ _ _ Hc) in Hrun. injection Hrun as <- <-. exact Hq.
  - destruct (admitted h self s) eqn:Hadm.
    + assert (sql_count_recent (sql_now s) (db s) < Api.max_requests self)%Z as Hroom.
      { unfold admitted in Hadm.
        destruct (can_make_request _ _ _) as [[a w] d] eqn:Hcan. simpl in Hadm. subst a.
        pose proof (LimiterFacts.can_make_request_allowed (Api.max_requests self)
                      (readings h s) (db s) w) as H.
        rewrite Hcan in H. specialize (H eq_refl). simpl in H.
        rewrite LimiterFacts.count_recent_after_delete in H by lia. exact H. }
      rewrite (prompt_admitted h self _ _ _ _ Hc Hadm) in Hrun.
      destruct (Api.attempts _ _ _ _ _ _ _ _ _) as [[[result|e] s1]|] eqn:Hloop;
        [| |discriminate]; injection Hrun as <- <-.
      * pose proof (attempts_clock _ _ _ _ Htime _ _ _ _ _ Hloop) as Hclock.
        apply sql_now_mono in Hclock. change (sql_now (checked s)) with (sql_now s) in Hclock.
        apply attempts_db in Hloop as (so & d & _ & _ & Hdb).
        change (db (checked s)) with (db s) in Hdb.
        intros now Hnow. rewrite Hdb. unfold record_request.
        rewrite LimiterFacts.count_recent_after_insert.
        pose proof (LimiterFacts.count_recent_antitone (sql_now s) now (db s)).
        destruct (decide _); lia.
      * pose proof (attempts_clock _ _ _ _ Htime _ _ _ _ _ Hloop) as Hclock.
        apply sql_now_mono in Hclock. change (sql_now (checked s)) with (sql_now s) in Hclock.
        apply attempts_db in Hloop. change (db (checked s)) with (db s) in Hloop.
        intros now Hnow. simpl. rewrite Hloop. apply Hq.
        change (sql_now (set_heap _ (surveyed s1))) with (sql_now s1) in Hnow. lia.
    + rewrite (prompt_denied h self _ _ _ _ Hc Hadm) in Hrun. injection Hrun as <- <-.
      exact Hq.
Qed.

(** X18. Used from one thread, [prompt] keeps the quota: when no child
    process takes a negative time and the store starts within the quota,
    then after any calls of [prompt], one after the other, the rows of the
    trailing hour are at most [max_requests], at the instant the calls end
    and from then on. *)
Theorem sequential_prompts_keep_quota
    (requests : list (string * option (list string) * bool)) :
  ∀ (s : State) (rs : list nat) (s' : State),
    time_passes h →
    in_quota self s →
    prompts h self requests s = Some (rs, s') →
    in_quota self s'.
Proof.
  induction requests as [|[[text extra_flags] use_cache] rest IH]; intros s rs s' Htime Hq Hrun.
  - injection Hrun as <- <-. exact Hq.
  - simpl in Hrun. unfold bind at 1 in Hrun.
    destruct (Api.prompt _ _ _ _ _ _) as [[r s1]|] eqn:Hp; [|discriminate].
    unfold bind at 1 in Hrun.
    destruct (prompts _ _ _ _) as [[rs1 s2]|] eqn:Hps; [|discriminate].
    injection Hrun as <- <-.
    eapply IH; [exact Htime| |exact Hps]. eapply prompt_in_quota; eauto.
Qed.

End Requests.

End EngineMore.

(** ** The queue, the batches and the server *)

Module ServerMore.

Import Py RateLimiter Runtime Engine EngineFacts Server ServerFacts More.

Section Turns.

Context (h : Host).

(** A turn of the worker takes the first request off the queue, if there is
    one, and leaves the others in their order. *)
Lemma worker_turn (s : State) :
  ∃ s', worker h s = Some (Nothing, s') ∧ request_queue s' = tail (request_queue s).
Proof.
  unfold worker, bind, Api._process_queue.
  destruct (request_queue s) as [|request rest] eqn:Hq.
  - exists s. split; [reflexivity|]. rewrite Hq. reflexivity.
  - set (s1 := set_request_queue (λ _, rest) s).
    destruct (prompt_total h gemini (rq_prompt request) (rq_extra_flags request) true s1)
      as (result & s2 & Hp).
    rewrite (bind_eq _ _ _ _ _ Hp).
    destruct (prompt_extends _ _ _ _ _ _ _ _ Hp) as [_ _ _ Hq2 _].
    destruct (rq_callback request) as [cb|]; eexists; (split; [reflexivity|]);
      simpl; exact Hq2.
Qed.

Lemma worker_turns_run (n : nat) :
  ∀ s, registry_ok s →
    ∃ s', worker_turns h n s = Some (tt, s')
          ∧ registry_ok s' ∧ moved s s'
          ∧ request_queue s' = drop n (request_queue s).
Proof.
  induction n as [|n IH]; intros s Hok.
  - exists s. split; [reflexivity|]. split; [exact Hok|]. split; [apply moved_refl|].
    rewrite drop_0. reflexivity.
  - destruct (worker_turn s) as (s1 & Hturn & Hq1).
    destruct (worker_step h s Nothing s1 Hok Hturn) as [Hok1 Hm1].
    destruct (IH s1 Hok1) as (s' & Hrun & Hok' & Hm' & Hq').
    exists s'. simpl. rewrite (bind_eq _ _ _ _ _ Hturn). split; [exact Hrun|].
    split; [exact Hok'|]. split; [eapply moved_trans; eauto|].
    rewrite Hq', Hq1. destruct (request_queue s); simpl; [apply drop_nil|reflexivity].
Qed.

(** X12. The worker serves the queue in the order of arrival and completes
    no job before its turn. From a state of a run of the server in which
    the request of job [job_id] is at position [k] of the queue: after [n]
    turns of the worker, [n] at most [k], the queue has lost its first [n]
    requests and the job still reads "processing". The turn that follows
    [k] turns takes the request of the job off the queue; it registers the
    job as "completed", with the result of [prompt], when the call of
    [prompt] for the request returns, and leaves it "processing" when that
    call raises. *)
Theorem job_waits_for_its_turn (s : State) (k : nat) (request : Request)
    (job_id : string) (n : nat) :
  registry_ok s →
  request_queue s !! k = Some request →
  rq_callback request = Some job_id →
  (n ≤ k)%nat →
  ∃ s',
    worker_turns h n s = Some (tt, s')
    ∧ request_queue s' = drop n (request_queue s)
    ∧ status job_id s' = Some (VStr "processing")
    ∧ (n = k →
       ∃ s'',
         worker h s' = Some (Nothing, s'')
         ∧ request_queue s'' = drop (S k) (request_queue s)
         ∧ match Api.prompt h gemini (rq_prompt request) (rq_extra_flags request) true
                   (set_request_queue (λ _, drop (S k) (request_queue s)) s') with
           | Some (result, _) =>
               status job_id s'' = Some (VStr "completed")
               ∧ job_results s'' !! job_id ≫= (.!! "result") = Some (VRef result)
           | None => status job_id s'' = Some (VStr "processing")
           end).
Proof.
  intros Hok Hk Hcb Hle.
  destruct (worker_turns_run n s Hok) as (s' & Hrun & Hok' & _ & Hq').
  assert (request_queue s' !! (k - n)%nat = Some request) as Hpos.
  { rewrite Hq', lookup_drop. replace (n + (k - n))%nat with k by lia. exact Hk. }
  assert (status job_id s' = Some (VStr "processing")) as Hst.
  { apply (ok_queued s' Hok'). apply list_elem_of_omap. exists request.
    split; [eapply list_elem_of_lookup_2, Hpos|exact Hcb]. }
  exists s'. split; [exact Hrun|]. split; [exact Hq'|]. split; [exact Hst|].
  intros ->.
  assert (request_queue s' = request :: drop (S k) (request_queue s)) as Hq1.
  { rewrite Hq'. apply drop_S. exact Hk. }
  set (rest := drop (S k) (request_queue s)) in *.
  set (s1 := set_request_queue (λ _, rest) s').
  unfold worker, Api._process_queue. unfold bind at 1. rewrite Hq1. fold s1.
  destruct (Api.prompt h gemini (rq_prompt request) (rq_extra_flags request) true s1)
    as [[result s2]|] eqn:Hp.
  - rewrite (bind_eq _ _ _ _ _ Hp), Hcb.
    destruct (prompt_extends _ _ _ _ _ _ _ _ Hp) as [_ _ _ Hq2 _].
    eexists. split; [reflexivity|]. split; [simpl; exact Hq2|].
    split; [unfold status|]; simpl; rewrite lookup_insert_eq; reflexivity.
  - unfold bind at 1. rewrite Hp. eexists. split; [reflexivity|].
    split; [reflexivity|]. exact Hst.
Qed.

(** When [batch_prompts] returns, it returns one result for each prompt. *)
Lemma batch_prompts_length (self : Api.GeminiAPI) (prompts : list string) :
  ∀ (s : State) (rs : list nat) (s' : State),
    Api.batch_prompts h self prompts s = Some (rs, s') → length rs = length prompts.
Proof.
  induction prompts as [|p rest IH]; intros s rs s' Hrun.
  - injection Hrun as <- <-. reflexivity.
  - simpl in Hrun. rewrite (bind_eq _ _ _ _ _ (limiter_check_eq h self s)) in Hrun.
    unfold bind at 1 in Hrun.
    destruct ((if admitted h self s then ret tt
               else match wait_time h self s with
                    | Some w => sleep w
                    | None => raise
                    end) (checked s)) as [[[] s1]|]; [|discriminate].
    unfold bind at 1 in Hrun.
    destruct (Api.prompt h self p None true s1) as [[r s2]|]; [|discriminate].
    unfold bind at 1 in Hrun.
    destruct ((match rest with [] => ret tt | _ :: _ => sleep 1 end) s2) as [[[] s3]|];
      [|discriminate].
    unfold bind at 1 in Hrun.
    destruct (Api.batch_prompts h self rest s3) as [[rs3 s4]|] eqn:Hrest; [|discriminate].
    injection Hrun as <- <-. simpl. f_equal. eapply IH, Hrest.
Qed.

(** X13. A batch job reports every prompt. POST /batch registers the job as
    "processing" and announces the number of prompts; the thread
    [process_batch], when it comes to its end, that is when no call in
    [batch_prompts] raises, registers the job as "completed" with exactly
    one result for each prompt, and the thread is gone. *)
Theorem batch_job_reports_every_prompt (job_id : string) (prompts : list string)
    (s s1 s2 : State) (reply r : Reply) :
  batch h job_id prompts s = Some (reply, s1) →
  process_batch h job_id s1 = Some (r, s2) →
  (∃ body, reply = Json body
           ∧ body !! "total_prompts" = Some (VInt (Z.of_nat (length prompts))))
  ∧ status job_id s1 = Some (VStr "processing")
  ∧ job_results s1 !! job_id ≫= (.!! "total_prompts")
    = Some (VInt (Z.of_nat (length prompts)))
  ∧ status job_id s2 = Some (VStr "completed")
  ∧ (∃ rs, job_results s2 !! job_id ≫= (.!! "results") = Some (VRefs rs)
           ∧ length rs = length prompts)
  ∧ batch_threads s2 !! job_id = None.
Proof.
  intros Hbatch Hthread.
  unfold batch, bind, now_iso, gets, modify, ret in Hbatch. injection Hbatch as <- <-.
  split; [eexists; split; reflexivity|].
  split; [unfold status; simpl; rewrite lookup_insert_eq; reflexivity|].
  split; [simpl; rewrite lookup_insert_eq; reflexivity|].
  unfold process_batch in Hthread. unfold bind at 1, gets in Hthread.
  simpl in Hthread. rewrite lookup_insert_eq in Hthread.
  unfold bind at 1, modify in Hthread. unfold bind at 1 in Hthread.
  destruct (Api.batch_prompts h gemini prompts _) as [[rs s3]|] eqn:Hb; [|discriminate].
  injection Hthread as <- <-.
  destruct (batch_prompts_extends h _ _ _ _ Hb) as [_ _ _ _ Ht3].
  split; [unfold status; simpl; rewrite lookup_insert_eq; reflexivity|].
  split.
  - exists rs. split; [simpl; rewrite lookup_insert_eq; reflexivity|].
    eapply batch_prompts_length, Hb.
  - simpl. rewrite Ht3. simpl. apply lookup_delete_eq.
Qed.

(** X15. POST /cache/clear empties the cache and touches nothing else, and
    the next request, also one that was cached before, is not served from
    the cache: when the limiter admits it, the command runs again. *)
Theorem clear_cache_forces_a_new_run (text : string) (extra_flags : option (list string))
    (use_cache : bool) (s : State) :
  ∃ reply s1,
    clear_cache s = Some (reply, s1)
    ∧ response_cache s1 = ∅
    ∧ db s1 = db s ∧ heap s1 = heap s ∧ job_results s1 = job_results s
    ∧ request_queue s1 = request_queue s
    ∧ cached h text extra_flags use_cache s1 = None
    ∧ (admitted h gemini s = true →
       ∃ r s2, Api.prompt h gemini text extra_flags use_cache s1 = Some (r, s2)
               ∧ (calls s < calls s2)%nat).
Proof.
  eexists _, _. split; [reflexivity|]. do 5 (split; [reflexivity|]).
  assert (cached h text extra_flags use_cache (set_response_cache (λ _, ∅) s) = None) as Hc.
  { unfold cached. destruct use_cache; [apply lookup_empty|reflexivity]. }
  split; [exact Hc|]. intros Hadm.
  apply (EngineMore.miss_admitted_runs h gemini text extra_flags use_cache _ Hc Hadm).
  reflexivity.
Qed.

End Turns.

End ServerMore.

(** ** The further properties at concrete inputs *)

Module MoreChecks.

Import Py RateLimiter Runtime Engine Server Scenario More.

Lemma allowed_iff_quota_remains_witness :
  (can_make_request 1 (at_time 0) init_db).1.1 = true
  ↔ (0 < remaining_this_hour (get_usage_stats 1 0 0 init_db))%Z.
Proof. apply (LimiterMore.allowed_iff_quota_remains 1 (at_time 0) init_db 0). simpl. lia. Defined.

Lemma waiting_reopens_the_window_witness :
  (can_make_request 1 (on_the_second 3700) {| db_rows := [row 100]; db_last_id := 1 |}).1.1
  = true.
Proof.
  apply (LimiterMore.waiting_reopens_the_window 1 200 3500
           {| db_rows := [row 100]; db_last_id := 1 |}
           {| db_rows := [row 100]; db_last_id := 1 |} (on_the_second 3700)).
  - lia.
  - vm_compute. discriminate.
  - vm_compute. reflexivity.
  - simpl. lia.
  - simpl. lia.
Defined.

Lemma denied_wait_bounds_witness :
  can_make_request 1 (at_time 200) {| db_rows := [row 100]; db_last_id := 1 |}
  = ((false, Some 3500%Z), {| db_rows := [row 100]; db_last_id := 1 |})
  ∧ (1 ≤ 3500 ≤ 3600)%Z.
Proof.
  assert (can_make_request 1 (at_time 200) {| db_rows := [row 100]; db_last_id := 1 |}
          = ((false, Some 3500%Z), {| db_rows := [row 100]; db_last_id := 1 |})) as Hden
    by (vm_compute; reflexivity).
  split; [exact Hden|].
  apply (LimiterMore.denied_wait_bounds 1 3500 (at_time 200) _ _ Hden).
  - intros r Hr. apply list_elem_of_singleton in Hr. subst r. simpl. lia.
  - vm_compute. discriminate.
Defined.

Lemma record_request_adds_one_row_witness :
  sql_count_recent 5 (record_request (λ x, x) 5 "hi" 2 init_db)
  = (sql_count_recent 5 init_db + 1)%Z.
Proof.
  apply (LimiterMore.record_request_adds_one_row (λ x, x) 5 "hi" 2 init_db).
  split; [apply NoDup_nil_2|]. intros r Hr. inversion Hr.
Defined.


Lemma truncated_wait_falls_short_witness :
  (can_make_request 1 (on_the_second (200 + 3499))
     {| db_rows := [row 100]; db_last_id := 1 |}).1.1 = false.
Proof.
  apply (LimiterMore.truncated_wait_falls_short 1 200 500000 3499
           {| db_rows := [row 100]; db_last_id := 1 |}
           {| db_rows := [row 100]; db_last_id := 1 |}).
  - unfold million. lia.
  - vm_compute. reflexivity.
  - lia.
Defined.

Lemma wait_is_one_when_local_clock_is_ahead_witness :
  ∃ w,
    can_make_request 1
      {| at_delete := 200; at_count := 200; at_min := 200; py_now_us := 3800000000 |}
      {| db_rows := [row 100]; db_last_id := 1 |}
    = ((false, Some w), {| db_rows := [row 100]; db_last_id := 1 |})
    ∧ w = 1%Z.
Proof.
  eexists. split; [vm_compute; reflexivity|].
  apply (LimiterMore.wait_is_one_when_local_clock_is_ahead 1 1
           {| at_delete := 200; at_count := 200; at_min := 200;
              py_now_us := 3800000000 |}
           {| db_rows := [row 100]; db_last_id := 1 |}
           {| db_rows := [row 100]; db_last_id := 1 |}).
  - vm_compute. reflexivity.
  - vm_compute. discriminate.
  - intros r Hr. apply list_elem_of_singleton in Hr. subst r. simpl. lia.
  - vm_compute. discriminate.
Defined.

Lemma prompt_records_successful_runs_only_witness :
  ∃ r s' d,
    Api.prompt (flaky 0) (api 3 10) "hi" None true (initial 0 init_db) = Some (r, s')
    ∧ heap s' !! r = Some d
    ∧ d !! "output" = Some (VStr "hello")
    ∧ db s' = record_request (λ x, x) (sql_now s') "hi" 5 init_db.
Proof.
  destruct (EngineFacts.prompt_total (flaky 0) (api 3 10) "hi" None true (initial 0 init_db))
    as (r & s' & Hrun).
  assert (∃ d, heap s' !! r = Some d ∧ d !! "success" = Some (VBool true)
               ∧ d !! "output" = Some (VStr "hello")) as (d & Hd & Hok & Hout).
  { vm_compute in Hrun. injection Hrun as <- <-. eexists. repeat split; reflexivity. }
  destruct (EngineMore.prompt_records_successful_runs_only (flaky 0) (api 3 10) "hi" None
              true (initial 0 init_db) s' r d Hrun Hd) as [Hrec _].
  destruct (Hrec (conj eq_refl Hok)) as (so & Hso & Hdb).
  rewrite Hout in Hso. injection Hso as <-.
  exists r, s', d. auto.
Defined.

Lemma successful_result_usage_counts_the_request_witness :
  ∃ r s' d u,
    Api.prompt (flaky 0) (api 3 10) "hi" None true (initial 0 init_db) = Some (r, s')
    ∧ heap s' !! r = Some d
    ∧ d !! "usage" = Some (VUsage u)
    ∧ requests_last_hour u = (sql_count_recent (sql_now s') init_db + 1)%Z.
Proof.
  destruct (EngineFacts.prompt_total (flaky 0) (api 3 10) "hi" None true (initial 0 init_db))
    as (r & s' & Hrun).
  assert (∃ d, heap s' !! r = Some d ∧ d !! "success" = Some (VBool true))
    as (d & Hd & Hok).
  { vm_compute in Hrun. injection Hrun as <- <-. eexists. split; reflexivity. }
  destruct (EngineMore.successful_result_usage_counts_the_request (flaky 0) (api 3 10) "hi"
              None true (initial 0 init_db) s' r d eq_refl Hrun Hd Hok)
    as (u & Hu & Hcount & _).
  exists r, s', d, u. auto.
Defined.

Lemma cache_holds_successes_only_witness :
  ∃ r s',
    Api.prompt (flaky 9) (api 3 10) "hi" None true (initial 0 init_db) = Some (r, s')
    ∧ cache_sound s'.
Proof.
  destruct (EngineFacts.prompt_total (flaky 9) (api 3 10) "hi" None true (initial 0 init_db))
    as (r & s' & Hrun).
  exists r, s'. split; [exact Hrun|].
  apply (EngineMore.cache_holds_successes_only (flaky 9) (api 3 10) "hi" None true
           (initial 0 init_db) s' r); [|exact Hrun].
  intros k l Hk. simpl in Hk. rewrite lookup_empty in Hk. discriminate.
Defined.

Lemma success_after_failures_witness :
  ∃ r s' d,
    Api.prompt (flaky 1) (api 3 10) "hi" None true (initial 0 init_db) = Some (r, s')
    ∧ calls s' = 2%nat
    ∧ heap s' !! r = Some d
    ∧ d !! "attempt" = Some (VInt 2).
Proof.
  destruct (EngineMore.success_after_failures (flaky 1) (api 3 10) "hi" None true
              (initial 0 init_db) 1 "hello" "")
    as (r & s' & d & Hrun & _ & Hcalls & Hd & _ & _ & Hattempt); try reflexivity.
  - vm_compute. lia.
  - intros i Hi. destruct i as [|i]; [reflexivity|lia].
  - exists r, s', d. auto.
Defined.

Lemma job_waits_for_its_turn_witness :
  ∃ reply s s',
    step (flaky 0) (PostPromptAsync "job-1" "hi" None) (started 0 init_db) = Some (reply, s)
    ∧ status "job-1" s = Some (VStr "processing")
    ∧ worker (flaky 0) s = Some (Nothing, s')
    ∧ request_queue s' = []
    ∧ status "job-1" s' = Some (VStr "completed").
Proof.
  destruct (step (flaky 0) (PostPromptAsync "job-1" "hi" None) (started 0 init_db))
    as [[reply s]|] eqn:Hstep; [|vm_compute in Hstep; discriminate].
  destruct (ServerFacts.step_ok (flaky 0) _ _ _ _ (ServerFacts.started_ok 0 init_db) Hstep)
    as [Hok _].
  assert (∃ request, request_queue s = [request] ∧ rq_callback request = Some "job-1")
    as (request & Hq & Hcb).
  { vm_compute in Hstep. injection Hstep as <- <-. eexists. split; reflexivity. }
  destruct (ServerMore.job_waits_for_its_turn (flaky 0) s 0 request "job-1" 0 Hok)
    as (s0 & Hrun & _ & Hst & Hturn).
  - rewrite Hq. reflexivity.
  - exact Hcb.
  - lia.
  - injection Hrun as <-. destruct (Hturn eq_refl) as (s' & Hw & Hq' & Hdone).
    exists reply, s, s'. split; [reflexivity|]. split; [exact Hst|].
    split; [exact Hw|]. split; [rewrite Hq', Hq; reflexivity|].
    destruct (EngineFacts.prompt_total (flaky 0) gemini (rq_prompt request)
                (rq_extra_flags request) true
                (set_request_queue (λ _, drop 1 (request_queue s)) s))
      as (result & s2 & Hp).
    rewrite Hp in Hdone. apply Hdone.
Defined.

Lemma prompt_work_is_bounded_witness :
  ∃ r s',
    Api.prompt (flaky 9) (api 3 10) "hi" None true (initial 0 init_db) = Some (r, s')
    ∧ (calls s' ≤ 3)%nat
    ∧ (slept_for (effects s') ≤ 6)%Z.
Proof.
  destruct (EngineFacts.prompt_total (flaky 9) (api 3 10) "hi" None true (initial 0 init_db))
    as (r & s' & Hrun).
  destruct (EngineMore.prompt_work_is_bounded (flaky 9) (api 3 10) "hi" None true
              (initial 0 init_db) r s' Hrun) as (tr & Htr & Hcalls & Hsl).
  exists r, s'. split; [exact Hrun|]. simpl in Htr. rewrite Htr.
  split; [exact (proj2 Hcalls)|exact (proj2 Hsl)].
Defined.

Lemma batch_job_reports_every_prompt_witness :
  ∃ reply s1 r s2 rs,
    batch (flaky 0) "job-2" ["a"; "b"] (started 0 init_db) = Some (reply, s1)
    ∧ process_batch (flaky 0) "job-2" s1 = Some (r, s2)
    ∧ status "job-2" s2 = Some (VStr "completed")
    ∧ job_results s2 !! "job-2" ≫= (.!! "results") = Some (VRefs rs)
    ∧ length rs = 2%nat.
Proof.
  destruct (batch (flaky 0) "job-2" ["a"; "b"] (started 0 init_db))
    as [[reply s1]|] eqn:Hbatch; [|vm_compute in Hbatch; discriminate].
  destruct (process_batch (flaky 0) "job-2" s1) as [[r s2]|] eqn:Hthread.
  - destruct (ServerMore.batch_job_reports_every_prompt (flaky 0) "job-2" ["a"; "b"]
                (started 0 init_db) s1 s2 reply r Hbatch Hthread)
      as (_ & _ & _ & Hdone & (rs & Hrs & Hlen) & _).
    exists reply, s1, r, s2, rs. auto.
  - exfalso. vm_compute in Hbatch. injection Hbatch as <- <-.
    vm_compute in Hthread. discriminate.
Defined.

Lemma sequential_prompts_keep_quota_witness :
  ∃ rs s',
    prompts (flaky 0) (api 3 1) [("a", None, true); ("b", None, true)] (initial 0 init_db)
    = Some (rs, s')
    ∧ in_quota (api 3 1) s'.
Proof.
  destruct (EngineFacts.prompt_total (flaky 0) (api 3 1) "a" None true (initial 0 init_db))
    as (r1 & s1 & H1).
  destruct (EngineFacts.prompt_total (flaky 0) (api 3 1) "b" None true s1) as (r2 & s2 & H2).
  assert (prompts (flaky 0) (api 3 1) [("a", None, true); ("b", None, true)]
            (initial 0 init_db) = Some ([r1; r2], s2)) as Hrun.
  { simpl. unfold bind at 1. rewrite H1. unfold bind at 1. unfold bind at 1. rewrite H2.
    reflexivity. }
  exists [r1; r2], s2. split; [exact Hrun|].
  apply (EngineMore.sequential_prompts_keep_quota (flaky 0) (api 3 1) _ _ _ _) in Hrun.
  - exact Hrun.
  - intros n cmd. simpl. destruct (n <? 0)%nat; simpl; lia.
  - intros now _. vm_compute. discriminate.
Defined.

End MoreChecks.
